(** * UpdateLoop: a frame scheduler with three ordered phases per tick

    A shallow embedding of [UpdateLoop.js] (class [UpdateLoop]) and of the
    three collaborators it calls: the clock [performance.now], the
    recurring timer [setInterval]/[clearInterval] and the display-refresh
    callback queue [requestAnimationFrame]/[cancelAnimationFrame].

    The development is organised as follows:
    - [JS]: the numbers and values of the host language that the class
      computes with (finite numbers, the two infinities, [NaN], [null],
      [undefined]) and the arithmetic the class uses on them;
    - the object state ([UpdateLoop], [Driver]) and the host state
      ([World]); a state-and-exception monad [M] threading both;
    - the methods of the class, one definition per method, in the order
      of the source;
    - the host events that call back into the class ([fire_interval],
      [refresh_signal]);
    - the properties. *)

From Stdlib Require Import QArith Qround Qabs Qreduction Lqa Lia.
From stdpp Require Import base decidable option list.

Local Open Scope Q_scope.

(** ** Numbers and values of the host language *)

Module JS.

(** A number is a finite value, one of the two infinities, or [NaN].
    Finite values are exact rationals kept in lowest terms (every
    operation below reduces its result), so that equal numbers are equal
    terms.  The sign of zero is not represented. *)
Inductive num : Type :=
| Fin (q : Q)
| PInf
| NInf
| NaN.

Inductive value : Type :=
| Undefined
| Null
| Num (n : num).

Definition of_Z (z : Z) : num := Fin (inject_Z z).

(** [ToNumber]: [undefined] becomes [NaN], [null] becomes [0]. *)
Definition to_number (v : value) : num :=
  match v with
  | Undefined => NaN
  | Null => of_Z 0
  | Num n => n
  end.

(** [ToBoolean]: [undefined], [null], [0] and [NaN] are falsy. *)
Definition truthy (v : value) : bool :=
  match v with
  | Undefined | Null => false
  | Num (Fin q) => negb (Qeq_bool q 0)
  | Num NaN => false
  | Num _ => true
  end.

(** [a === b] *)
Definition strict_eq (a b : value) : bool :=
  match a, b with
  | Undefined, Undefined => true
  | Null, Null => true
  | Num (Fin p), Num (Fin q) => Qeq_bool p q
  | Num PInf, Num PInf => true
  | Num NInf, Num NInf => true
  | _, _ => false
  end.

(** [a || b] *)
Definition or_else (a b : value) : value := if truthy a then a else b.

Definition add (a b : num) : num :=
  match a, b with
  | NaN, _ | _, NaN => NaN
  | Fin p, Fin q => Fin (Qred (p + q))
  | PInf, NInf | NInf, PInf => NaN
  | PInf, _ | _, PInf => PInf
  | NInf, _ | _, NInf => NInf
  end.

Definition neg (a : num) : num :=
  match a with
  | Fin p => Fin (Qred (- p))
  | PInf => NInf
  | NInf => PInf
  | NaN => NaN
  end.

Definition sub (a b : num) : num :=
  match a, b with
  | NaN, _ | _, NaN => NaN
  | Fin p, Fin q => Fin (Qred (p - q))
  | PInf, PInf | NInf, NInf => NaN
  | PInf, _ | _, NInf => PInf
  | NInf, _ | _, PInf => NInf
  end.

(** [a / b].  A finite number over zero is an infinity of the sign of
    the numerator, and [0 / 0] is [NaN]; a finite number over an
    infinity is zero. *)
Definition div (a b : num) : num :=
  match a, b with
  | NaN, _ | _, NaN => NaN
  | Fin p, Fin q =>
      if Qeq_bool q 0 then
        match p ?= 0 with
        | Gt => PInf
        | Lt => NInf
        | Eq => NaN
        end
      else Fin (Qred (p / q))
  | Fin _, _ => of_Z 0
  | PInf, Fin q => if Qle_bool 0 q then PInf else NInf
  | NInf, Fin q => if Qle_bool 0 q then NInf else PInf
  | _, _ => NaN
  end.

(** [Math.floor] *)
Definition floor (a : num) : num :=
  match a with
  | Fin p => of_Z (Qfloor p)
  | _ => a
  end.

(** [Math.abs] *)
Definition abs (a : num) : num :=
  match a with
  | Fin p => Fin (Qred (Qabs p))
  | PInf | NInf => PInf
  | NaN => NaN
  end.

(** [a > b]: false as soon as one side is [NaN]. *)
Definition gt (a b : num) : bool :=
  match a, b with
  | NaN, _ | _, NaN => false
  | Fin p, Fin q => negb (Qle_bool p q)
  | PInf, PInf => false
  | PInf, _ => true
  | _, NInf => match a with NInf => false | _ => true end
  | _, _ => false
  end.

(** [a >= b] *)
Definition ge (a b : num) : bool :=
  match a, b with
  | NaN, _ | _, NaN => false
  | Fin p, Fin q => Qle_bool q p
  | PInf, _ => true
  | _, NInf => true
  | _, _ => false
  end.

Definition is_finite (a : num) : bool :=
  match a with Fin _ => true | _ => false end.

End JS.

Import JS.

(** ** State of the object and of its host *)

(** Registrants are objects or functions of the caller; the class compares
    them by identity, so a registrant is its address. *)
Definition addr := nat.

(** What the dispatch loop reads on a registrant: whether each of the
    three properties is a function, and whether the registrant itself is
    one. *)
Inductive property : Type :=
| Missing
| Data (truthy : bool)
| Method.

Record Registrant : Type := mkRegistrant {
  r_earlyUpdate : property;
  r_update : property;
  r_lateUpdate : property;
  r_callable : bool
}.

(** The two [update] closures that are handed to the host.  Both read the
    fields of the [UpdateLoop] (and its current [loop] object) when they
    run, so a closure is determined by the literal it comes from. *)
Inductive closure : Type :=
| IntervalUpdate
| RAFUpdate.

(** The object stored in [this.loop]: which literal built it, and the
    fields its closures assign ([undefined] until then). *)
Record Driver : Type := mkDriver {
  loop_kind : closure;
  loop_timer : option nat;
  loop_raf : option nat;
  loop_startTime : value
}.

Record UpdateLoop : Type := mkUpdateLoop {
  objects : list addr;
  active : bool;
  targetFPS : value;
  timer : value;
  frame : num;
  mode : value;
  tolerance : num;
  lastUpdate : value;
  jitter : value;
  totalJitter : value;
  droppedFrame : option bool;
  loop : option Driver
}.

(** Calls observed on the registrants.  [Tick] is a ghost event that marks
    each entry into the dispatch routine [update]. *)
Inductive phase : Type :=
| EarlyUpdate
| Update
| LateUpdate
| Direct.

Inductive event : Type :=
| Tick (deltaTime : num)
| Call (obj : addr) (p : phase) (deltaTime : num).

(** The host: the successive readings of [performance.now()], the timers
    armed by [setInterval] and not yet cleared, the callbacks queued by
    [requestAnimationFrame] for the next display refresh (oldest first),
    the next handle, the registrants, and the calls made so far (oldest
    first). *)
Record World : Type := mkWorld {
  clock : nat -> num;
  reads : nat;
  intervals : list (nat * (closure * num));
  rafs : list (nat * closure);
  next_handle : nat;
  registrants : addr -> Registrant;
  calls : list event
}.

Definition UpdateLoop_INTERVAL : value := Num (of_Z 0).
Definition UpdateLoop_RAF : value := Num (of_Z 1).

(** *** Field updates *)

Definition set_objects (x : list addr) (s : UpdateLoop) : UpdateLoop :=
  mkUpdateLoop x (active s) (targetFPS s) (timer s) (frame s) (mode s)
    (tolerance s) (lastUpdate s) (jitter s) (totalJitter s) (droppedFrame s)
    (loop s).
Definition set_active (x : bool) (s : UpdateLoop) : UpdateLoop :=
  mkUpdateLoop (objects s) x (targetFPS s) (timer s) (frame s) (mode s)
    (tolerance s) (lastUpdate s) (jitter s) (totalJitter s) (droppedFrame s)
    (loop s).
Definition set_frame (x : num) (s : UpdateLoop) : UpdateLoop :=
  mkUpdateLoop (objects s) (active s) (targetFPS s) (timer s) x (mode s)
    (tolerance s) (lastUpdate s) (jitter s) (totalJitter s) (droppedFrame s)
    (loop s).
Definition set_lastUpdate (x : value) (s : UpdateLoop) : UpdateLoop :=
  mkUpdateLoop (objects s) (active s) (targetFPS s) (timer s) (frame s)
    (mode s) (tolerance s) x (jitter s) (totalJitter s) (droppedFrame s)
    (loop s).
Definition set_jitter (x : value) (s : UpdateLoop) : UpdateLoop :=
  mkUpdateLoop (objects s) (active s) (targetFPS s) (timer s) (frame s)
    (mode s) (tolerance s) (lastUpdate s) x (totalJitter s) (droppedFrame s)
    (loop s).
Definition set_totalJitter (x : value) (s : UpdateLoop) : UpdateLoop :=
  mkUpdateLoop (objects s) (active s) (targetFPS s) (timer s) (frame s)
    (mode s) (tolerance s) (lastUpdate s) (jitter s) x (droppedFrame s)
    (loop s).
Definition set_droppedFrame (x : option bool) (s : UpdateLoop) : UpdateLoop :=
  mkUpdateLoop (objects s) (active s) (targetFPS s) (timer s) (frame s)
    (mode s) (tolerance s) (lastUpdate s) (jitter s) (totalJitter s) x
    (loop s).
Definition set_loop (x : option Driver) (s : UpdateLoop) : UpdateLoop :=
  mkUpdateLoop (objects s) (active s) (targetFPS s) (timer s) (frame s)
    (mode s) (tolerance s) (lastUpdate s) (jitter s) (totalJitter s)
    (droppedFrame s) x.

Definition set_loop_timer (x : option nat) (d : Driver) : Driver :=
  mkDriver (loop_kind d) x (loop_raf d) (loop_startTime d).
Definition set_loop_raf (x : option nat) (d : Driver) : Driver :=
  mkDriver (loop_kind d) (loop_timer d) x (loop_startTime d).
Definition set_loop_startTime (x : value) (d : Driver) : Driver :=
  mkDriver (loop_kind d) (loop_timer d) (loop_raf d) x.

Definition set_reads (x : nat) (w : World) : World :=
  mkWorld (clock w) x (intervals w) (rafs w) (next_handle w) (registrants w)
    (calls w).
Definition set_intervals (x : list (nat * (closure * num))) (w : World) : World :=
  mkWorld (clock w) (reads w) x (rafs w) (next_handle w) (registrants w)
    (calls w).
Definition set_rafs (x : list (nat * closure)) (w : World) : World :=
  mkWorld (clock w) (reads w) (intervals w) x (next_handle w) (registrants w)
    (calls w).
Definition set_next_handle (x : nat) (w : World) : World :=
  mkWorld (clock w) (reads w) (intervals w) (rafs w) x (registrants w)
    (calls w).
Definition set_calls (x : list event) (w : World) : World :=
  mkWorld (clock w) (reads w) (intervals w) (rafs w) (next_handle w)
    (registrants w) x.

(** ** A state-and-exception monad

    A method runs on the object and the host and either returns or throws;
    the assignments made before a [throw] stay made. *)

Inductive exn : Type :=
| InvalidModeError   (* [Error('Invalid UpdateLoop Mode. ...')] *)
| TypeError.         (* a method called on [undefined] *)

Inductive outcome (A : Type) : Type :=
| Return (a : A) (s : UpdateLoop) (w : World)
| Throw (e : exn) (s : UpdateLoop) (w : World).
Arguments Return {A} a s w.
Arguments Throw {A} e s w.

Definition M (A : Type) : Type := UpdateLoop -> World -> outcome A.

Definition ret {A} (a : A) : M A := fun s w => Return a s w.
Definition bind {A B} (c : M A) (k : A -> M B) : M B :=
  fun s w =>
    match c s w with
    | Return a s' w' => k a s' w'
    | Throw e s' w' => Throw e s' w'
    end.
Definition throw {A} (e : exn) : M A := fun s w => Throw e s w.
Definition this {A} (f : UpdateLoop -> A) : M A := fun s w => Return (f s) s w.
Definition assign (f : UpdateLoop -> UpdateLoop) : M unit :=
  fun s w => Return tt (f s) w.
Definition host {A} (f : World -> A) : M A := fun s w => Return (f w) s w.
Definition effect (f : World -> World) : M unit :=
  fun s w => Return tt s (f w).

Declare Scope js_scope.
Delimit Scope js_scope with js.
Notation "'let*' x ':=' c 'in' k" := (bind c (fun x => k))
  (at level 10, x name, c at level 100, k at level 200) : js_scope.
Notation "c ';;' k" := (bind c (fun _ => k))
  (at level 100, k at level 200, right associativity) : js_scope.
Local Open Scope js_scope.

Definition final_state {A} (o : outcome A) : UpdateLoop :=
  match o with Return _ s _ | Throw _ s _ => s end.
Definition final_world {A} (o : outcome A) : World :=
  match o with Return _ _ w | Throw _ _ w => w end.
Definition thrown {A} (o : outcome A) : option exn :=
  match o with Return _ _ _ => None | Throw e _ _ => Some e end.

(** ** The collaborators *)

(** [performance.now()], the monotonic clock of the host: each call takes
    the next reading. *)
Definition performance_now : M num :=
  fun s w => Return (clock w (reads w)) s (set_reads (S (reads w)) w).

Fixpoint lookup_handle {A} (h : nat) (tbl : list (nat * A)) : option A :=
  match tbl with
  | [] => None
  | (h', a) :: rest => if bool_decide (h' = h) then Some a else lookup_handle h rest
  end.

Definition drop_handle {A} (h : nat) (tbl : list (nat * A)) : list (nat * A) :=
  filter (fun e => e.1 ≠ h) tbl.

(** [setInterval(callback, delay)] arms a recurring timer and returns its
    handle. *)
Definition setInterval (callback : closure) (ms : num) : M nat :=
  fun s w =>
    let h := next_handle w in
    Return h s
      (set_next_handle (S h)
         (set_intervals (intervals w ++ [(h, (callback, ms))]) w)).

(** [clearInterval(handle)]; nothing happens on [undefined] or on a handle
    that is not armed. *)
Definition clearInterval (handle : option nat) : M unit :=
  match handle with
  | Some h => effect (fun w => set_intervals (drop_handle h (intervals w)) w)
  | None => ret tt
  end.

(** [requestAnimationFrame(callback)] queues a callback for the next
    display refresh and returns its handle. *)
Definition requestAnimationFrame (callback : closure) : M nat :=
  fun s w =>
    let h := next_handle w in
    Return h s
      (set_next_handle (S h) (set_rafs (rafs w ++ [(h, callback)]) w)).

(** [cancelAnimationFrame(handle)] *)
Definition cancelAnimationFrame (handle : option nat) : M unit :=
  match handle with
  | Some h => effect (fun w => set_rafs (drop_handle h (rafs w)) w)
  | None => ret tt
  end.

(** A call of one of the registrant's functions.  The callbacks belong to
    the caller; here they are observers: a call is recorded and returns. *)
Definition invoke (obj : addr) (p : phase) (deltaTime : num) : M unit :=
  effect (fun w => set_calls (calls w ++ [Call obj p deltaTime]) w).

Definition ghost_tick (deltaTime : num) : M unit :=
  effect (fun w => set_calls (calls w ++ [Tick deltaTime]) w).

(** [typeof p === 'function'] and the truth value of a property. *)
Definition is_function (p : property) : bool :=
  match p with Method => true | _ => false end.

Definition property_truthy (p : property) : bool :=
  match p with
  | Missing => false
  | Data b => b
  | Method => true
  end.

(** [for (const obj of l) body] *)
Fixpoint for_of (l : list addr) (body : addr -> M unit) : M unit :=
  match l with
  | [] => ret tt
  | obj :: rest => body obj ;; for_of rest body
  end.

(** ** The class *)

(** [get delay()] *)
Definition delay (s : UpdateLoop) : num :=
  floor (div (of_Z 1000) (to_number (targetFPS s))).

(** [update(now)]: the dispatch routine. *)
Definition update (now : num) : M unit :=
  let* last := this lastUpdate in
  let deltaTime := sub now (to_number last) in
  assign (set_lastUpdate (Num now)) ;;
  let* d := this delay in
  assign (set_jitter (Num (abs (sub deltaTime d)))) ;;
  let* total := this totalJitter in
  let* j := this jitter in
  assign (set_totalJitter (Num (add (to_number total) (to_number j)))) ;;
  ghost_tick deltaTime ;;
  let* objs := this objects in
  for_of objs (fun obj =>
    let* r := host (fun w => registrants w obj) in
    if property_truthy (r_earlyUpdate r) && is_function (r_earlyUpdate r)
    then invoke obj EarlyUpdate deltaTime
    else ret tt) ;;
  let* objs := this objects in
  for_of objs (fun obj =>
    let* r := host (fun w => registrants w obj) in
    if property_truthy (r_update r) && is_function (r_update r)
    then invoke obj Update deltaTime
    else if r_callable r then invoke obj Direct deltaTime
    else ret tt) ;;
  let* objs := this objects in
  for_of objs (fun obj =>
    let* r := host (fun w => registrants w obj) in
    if is_function (r_lateUpdate r)
    then invoke obj LateUpdate deltaTime
    else ret tt).

(** Access to the object in [this.loop]; a member access on [undefined]
    throws. *)
Definition this_loop : M Driver :=
  let* l := this loop in
  match l with
  | Some d => ret d
  | None => throw TypeError
  end.

Definition assign_loop (f : Driver -> Driver) : M unit :=
  let* d := this_loop in
  assign (set_loop (Some (f d))).

(** The [update] member of the object literal of [createIntervalLoop]. *)
Definition interval_update : M unit :=
  let* f := this frame in
  assign (set_frame (add f (of_Z 1))) ;;
  let* now := performance_now in
  update now.

(** The [update] member of the object literal of [createRAFLoop]. *)
Definition raf_update : M unit :=
  let* now := performance_now in
  let* d := this_loop in
  let* ms := this delay in
  let frame' := floor (div (sub now (to_number (loop_startTime d))) ms) in
  let* fps := this targetFPS in
  let* f := this frame in
  (if negb (truthy fps) || gt frame' f then
     assign (set_droppedFrame (Some (ge (sub f frame') (of_Z 2)))) ;;
     assign (set_frame frame') ;;
     update now ;;
     assign (set_lastUpdate (Num now))
   else ret tt) ;;
  let* d := this_loop in
  let* h := requestAnimationFrame (loop_kind d) in
  assign_loop (set_loop_raf (Some h)).

Definition run_closure (c : closure) : M unit :=
  match c with
  | IntervalUpdate => interval_update
  | RAFUpdate => raf_update
  end.

(** [this.loop.update] *)
Definition loop_update : M closure :=
  let* d := this_loop in ret (loop_kind d).

(** [this.loop.start()] *)
Definition loop_start : M unit :=
  let* d := this_loop in
  match loop_kind d with
  | IntervalUpdate =>
      let* c := loop_update in
      let* ms := this delay in
      let* h := setInterval c ms in
      assign_loop (set_loop_timer (Some h))
  | RAFUpdate =>
      let* c := loop_update in
      run_closure c ;;
      let* now := performance_now in
      assign_loop (set_loop_startTime (Num now))
  end.

(** [this.loop.stop()] *)
Definition loop_stop : M unit :=
  let* d := this_loop in
  match loop_kind d with
  | IntervalUpdate =>
      let* d := this_loop in clearInterval (loop_timer d)
  | RAFUpdate =>
      let* d := this_loop in cancelAnimationFrame (loop_raf d)
  end.

(** [createIntervalLoop()] and [createRAFLoop()] store a fresh object. *)
Definition createIntervalLoop : M unit :=
  assign (set_loop (Some (mkDriver IntervalUpdate None None Undefined))).

Definition createRAFLoop : M unit :=
  assign (set_loop (Some (mkDriver RAFUpdate None None Undefined))).

(** [start()] *)
Definition start : M unit :=
  assign (set_totalJitter (Num (of_Z 0))) ;;
  assign (set_frame (of_Z (-1))) ;;
  let* t := this timer in
  if strict_eq t Null then
    let* now := performance_now in
    assign (set_lastUpdate (Num now)) ;;
    let* m := this mode in
    (if strict_eq m UpdateLoop_INTERVAL then createIntervalLoop
     else if strict_eq m UpdateLoop_RAF then createRAFLoop
     else throw InvalidModeError) ;;
    assign (set_active true) ;;
    loop_start
  else ret tt.

(** [stop()] *)
Definition stop : M unit :=
  loop_stop ;;
  assign (set_active false) ;;
  assign (set_frame (of_Z (-1))).

(** [register(obj)] *)
Definition register (obj : addr) : M unit :=
  let* objs := this objects in
  if negb (bool_decide (obj ∈ objs))
  then assign (set_objects (objs ++ [obj]))
  else ret tt.

(** [unregister(obj)] *)
Definition unregister (obj : addr) : M unit :=
  let* objs := this objects in
  assign (set_objects (filter (fun stored => stored ≠ obj) objs)).

(** [get averageJitter()] *)
Definition averageJitter (s : UpdateLoop) : num :=
  div (to_number (totalJitter s)) (frame s).

(** [constructor(targetFPS = 60, mode)]: the fields, then [this.start()].
    An argument left out is [Undefined]. *)
Definition constructor (targetFPS_arg mode_arg : value) (w : World)
  : outcome unit :=
  start
    (mkUpdateLoop []
       false
       (match targetFPS_arg with Undefined => Num (of_Z 60) | v => v end)
       Null
       (of_Z 0)
       (or_else mode_arg UpdateLoop_INTERVAL)
       (Fin (1 # 10))
       Undefined Undefined Undefined None None)
    w.

(** ** Host events *)

(** The timer with handle [h] fires: its callback runs if the timer is
    still armed. *)
Definition fire_interval (h : nat) : M unit :=
  let* tbl := host intervals in
  match lookup_handle h tbl with
  | Some (c, _) => run_closure c
  | None => ret tt
  end.

(** An exception that escapes a host callback is reported by the host and
    the host goes on. *)
Definition reported (c : M unit) : M unit :=
  fun s w =>
    match c s w with
    | Return _ s' w' | Throw _ s' w' => Return tt s' w'
    end.

Fixpoint run_frame_callbacks (pending : list (nat * closure)) : M unit :=
  match pending with
  | [] => ret tt
  | (h, c) :: rest =>
      let* queue := host rafs in
      (if bool_decide (h ∈ queue.*1)
       then effect (fun w => set_rafs (drop_handle h (rafs w)) w) ;;
            reported (run_closure c)
       else ret tt) ;;
      run_frame_callbacks rest
  end.

(** One display refresh: the callbacks queued so far run once each, oldest
    first, unless cancelled meanwhile; callbacks queued during the refresh
    wait for the next one. *)
Definition refresh_signal : M unit :=
  let* queue := host rafs in
  run_frame_callbacks queue.

(** A script of calls and host events, for stating scenarios. *)
Inductive step : Type :=
| CallStart
| CallStop
| CallRegister (obj : addr)
| CallUnregister (obj : addr)
| TimerFires (h : nat)
| Refresh.

Definition run_step (a : step) : M unit :=
  match a with
  | CallStart => start
  | CallStop => stop
  | CallRegister obj => register obj
  | CallUnregister obj => unregister obj
  | TimerFires h => fire_interval h
  | Refresh => refresh_signal
  end.

Fixpoint run (script : list step) : M unit :=
  match script with
  | [] => ret tt
  | a :: rest => run_step a ;; run rest
  end.

Definition and_then {A} (o : outcome unit) (c : M A) : outcome A :=
  match o with
  | Return _ s w => c s w
  | Throw e s w => Throw e s w
  end.

(** Ticks dispatched, and calls made on registrants, in a trace. *)
Definition is_tick (e : event) : bool :=
  match e with Tick _ => true | Call _ _ _ => false end.

Definition ticks (w : World) : nat := length (filter is_tick (calls w)).

Definition registrant_calls (w : World) : list event :=
  filter (fun e => negb (is_tick e)) (calls w).

(** What one tick records, phase by phase, for a registered set [objs]. *)
Definition early_calls (regs : addr -> Registrant) (dt : num) (obj : addr)
  : list event :=
  if property_truthy (r_earlyUpdate (regs obj))
     && is_function (r_earlyUpdate (regs obj))
  then [Call obj EarlyUpdate dt] else [].

Definition update_calls (regs : addr -> Registrant) (dt : num) (obj : addr)
  : list event :=
  if property_truthy (r_update (regs obj)) && is_function (r_update (regs obj))
  then [Call obj Update dt]
  else if r_callable (regs obj) then [Call obj Direct dt] else [].

Definition late_calls (regs : addr -> Registrant) (dt : num) (obj : addr)
  : list event :=
  if is_function (r_lateUpdate (regs obj))
  then [Call obj LateUpdate dt] else [].

Definition tick_calls (regs : addr -> Registrant) (dt : num) (objs : list addr)
  : list event :=
  Tick dt
  :: flat_map (early_calls regs dt) objs
  ++ flat_map (update_calls regs dt) objs
  ++ flat_map (late_calls regs dt) objs.

(** The fields [update] assigns. *)
Definition after_update (now : num) (s : UpdateLoop) : UpdateLoop :=
  let dt := sub now (to_number (lastUpdate s)) in
  let j := abs (sub dt (delay s)) in
  set_totalJitter (Num (add (to_number (totalJitter s)) j))
    (set_jitter (Num j) (set_lastUpdate (Num now) s)).

Definition log (l : list event) (w : World) : World :=
  set_calls (calls w ++ l) w.

(** The refresh-sync driver, piecewise: the frame index it computes from
    a reading [now], its eligibility test, and the fields an eligible
    signal assigns. *)
Definition elapsed_frames (now : num) (d : Driver) (s : UpdateLoop) : num :=
  floor (div (sub now (to_number (loop_startTime d))) (delay s)).

Definition eligible (frame' : num) (s : UpdateLoop) : bool :=
  negb (truthy (targetFPS s)) || gt frame' (frame s).

Definition after_raf_tick (now frame' : num) (s : UpdateLoop) : UpdateLoop :=
  set_lastUpdate (Num now)
    (after_update now
       (set_frame frame'
          (set_droppedFrame (Some (ge (sub (frame s) frame') (of_Z 2))) s))).

(** The fields [start] assigns before it looks at the mode. *)
Definition reset_for_start (now : num) (s : UpdateLoop) : UpdateLoop :=
  set_lastUpdate (Num now)
    (set_frame (of_Z (-1)) (set_totalJitter (Num (of_Z 0)) s)).

(** A registrant that defines the three phases as functions. *)
Definition all_phases (r : Registrant) : Prop :=
  r_earlyUpdate r = Method /\ r_update r = Method /\ r_lateUpdate r = Method.

(** Calls of [register] and [unregister] only. *)
Inductive registry_call : Type :=
| DoRegister (obj : addr)
| DoUnregister (obj : addr).

Definition registry_step (c : registry_call) : step :=
  match c with
  | DoRegister obj => CallRegister obj
  | DoUnregister obj => CallUnregister obj
  end.

(** *** Worlds and registrants for the examples *)

Definition three_phase_object : Registrant :=
  mkRegistrant Method Method Method false.

(** A host with nothing armed, whose clock starts at [t0] and advances by
    [ms] at each reading. *)
Definition fake_world (t0 ms : Z) : World :=
  mkWorld (fun k => of_Z (t0 + ms * Z.of_nat k)) 0 [] [] 0
    (fun _ => three_phase_object) [].

(** A host whose display stalls: the three readings of [start()] and the
    first refresh happen within 16 ms, the second refresh comes at 64 ms. *)
Definition skipping_clock (k : nat) : num :=
  match k with
  | 0 | 1 | 2 => of_Z 0
  | 3 => of_Z 16
  | _ => of_Z 64
  end%nat.

Definition skipping_world : World :=
  mkWorld skipping_clock 0 [] [] 0 (fun _ => three_phase_object) [].

(** The fixed-interval loop at 60 ticks per second on [fake_world t0 16],
    once its timer (handle 0) has fired [k] times. *)
Definition steady (t0 : Z) (k : nat) (s : UpdateLoop) (w : World) : Prop :=
  clock w = (fun n => of_Z (t0 + 16 * Z.of_nat n))
  /\ reads w = S k
  /\ intervals w = [(0%nat, (IntervalUpdate, of_Z 16))]
  /\ ticks w = k
  /\ targetFPS s = Num (of_Z 60)
  /\ frame s = of_Z (Z.of_nat k - 1)
  /\ lastUpdate s = Num (of_Z (t0 + 16 * Z.of_nat k)).

(** The refresh-sync loop without a rate, between two refresh signals:
    one callback of the driver is queued. *)
Definition uncapped_armed (s : UpdateLoop) (w : World) : Prop :=
  exists d h,
    loop s = Some d /\ loop_kind d = RAFUpdate
    /\ truthy (targetFPS s) = false
    /\ rafs w = [(h, RAFUpdate)].

(** The same loop with another rate. *)
Definition set_targetFPS (x : value) (s : UpdateLoop) : UpdateLoop :=
  mkUpdateLoop (objects s) (active s) x (timer s) (frame s) (mode s)
    (tolerance s) (lastUpdate s) (jitter s) (totalJitter s) (droppedFrame s)
    (loop s).

(** Two rates that the class cannot tell apart: it reads [targetFPS]
    through [!this.targetFPS] and through [1000 / this.targetFPS] only. *)
Definition agree (v1 v2 : value) : Prop :=
  truthy v1 = truthy v2 /\ to_number v1 = to_number v2.

Definition retarget {A} (v : value) (o : outcome A) : outcome A :=
  match o with
  | Return a s w => Return a (set_targetFPS v s) w
  | Throw e s w => Throw e (set_targetFPS v s) w
  end.

(** A computation that runs the same, step for step, when [targetFPS] is
    replaced by a rate that agrees with it, and that leaves the field
    alone. *)
Definition rate_blind {A} (c : M A) : Prop :=
  forall v s w,
    agree v (targetFPS s) ->
    c (set_targetFPS v s) w = retarget v (c s w)
    /\ targetFPS (final_state (c s w)) = targetFPS s.

(** A computation that leaves the reading [f] of the object as it was,
    whether it returns or throws. *)
Definition keeps {A B} (f : UpdateLoop -> B) (c : M A) : Prop :=
  forall s w, f (final_state (c s w)) = f s.

(** What the constructor fixes once and for all. *)
Definition settings (s : UpdateLoop) : value * value * value * num :=
  (targetFPS s, timer s, mode s, tolerance s).

(** A call or host event other than [register] and [unregister]. *)
Definition is_registry_step (a : step) : bool :=
  match a with
  | CallRegister _ | CallUnregister _ => true
  | _ => false
  end.

(** The test of the [switch] in [start]. *)
Definition valid_mode (m : value) : bool :=
  strict_eq m UpdateLoop_INTERVAL || strict_eq m UpdateLoop_RAF.

(** What the host has armed, timers and refresh callbacks together. *)
Definition armed_count (w : World) : nat :=
  (length (intervals w) + length (rafs w))%nat.

(** The calls made on one registrant. *)
Definition is_call_on (obj : addr) (e : event) : bool :=
  match e with
  | Tick _ => false
  | Call obj' _ _ => bool_decide (obj' = obj)
  end.

Definition calls_on (obj : addr) (w : World) : list event :=
  filter (is_call_on obj) (calls w).

(** A host with registrants of several shapes: 1 is a bare function, 2 a
    function that also has an [update] method, 3 an object whose [update]
    is not a function and that has a [lateUpdate] method, 4 an object with
    none of the three. *)
Definition mixed_registrants (obj : addr) : Registrant :=
  match obj with
  | 1 => mkRegistrant Missing Missing Missing true
  | 2 => mkRegistrant (Data true) Method Missing true
  | 3 => mkRegistrant Missing (Data true) Method false
  | 4 => mkRegistrant Missing Missing Missing false
  | _ => three_phase_object
  end%nat.

Definition mixed_world : World :=
  mkWorld (fun k => of_Z (16 * Z.of_nat k)) 0 [] [] 0 mixed_registrants [].

(** The handle the host gives out next is not in use. *)
Definition fresh_handle (w : World) : Prop :=
  Forall (fun e => e.1 ≠ next_handle w) (intervals w)
  /\ Forall (fun e => e.1 ≠ next_handle w) (rafs w).


(** The host after [this.loop.stop()] on the driver object [d]. *)
Definition after_loop_stop (d : Driver) (w : World) : World :=
  match loop_kind d with
  | IntervalUpdate =>
      match loop_timer d with
      | Some h => set_intervals (drop_handle h (intervals w)) w
      | None => w
      end
  | RAFUpdate =>
      match loop_raf d with
      | Some h => set_rafs (drop_handle h (rafs w)) w
      | None => w
      end
  end.

(** The refresh-sync loop between two refresh signals, with or without a
    rate: its driver object is the current one and exactly one callback
    of it is queued. *)
Definition refresh_armed (s : UpdateLoop) (w : World) : Prop :=
  exists d h,
    loop s = Some d /\ loop_kind d = RAFUpdate /\ rafs w = [(h, RAFUpdate)].

(** The same loop without a rate ([null] or 0), on a clock [c] whose
    readings are finite, once its start time is captured. *)
Definition uncapped_running (c : nat -> num) (s : UpdateLoop) (w : World)
  : Prop :=
  clock w = c
  /\ (targetFPS s = Null \/ targetFPS s = Num (of_Z 0))
  /\ exists d h st,
       loop s = Some d /\ loop_kind d = RAFUpdate
       /\ loop_startTime d = Num (Fin st)
       /\ rafs w = [(h, RAFUpdate)].

(** The fixed-interval loop whose only timer has handle [h], after [k]
    firings, on a host that had recorded [t0] ticks before. *)
Definition interval_running (h : nat) (t0 k : nat) (s : UpdateLoop) (w : World)
  : Prop :=
  (exists ms, intervals w = [(h, (IntervalUpdate, ms))])
  /\ ticks w = (t0 + k)%nat
  /\ frame s = of_Z (Z.of_nat k - 1)
  /\ droppedFrame s = None.





(** What holds of the object once its constructor has returned. *)
Definition constructed (s : UpdateLoop) : Prop :=
  timer s = Null /\ valid_mode (mode s) = true /\ is_Some (loop s).

(** * Properties *)

(** ** The monad and the host tables *)

(** Unfolds the monad and the collaborators down to states and worlds. *)
Ltac run_monad :=
  repeat (cbv beta iota delta
            [bind ret throw this assign host effect this_loop assign_loop
             loop_update performance_now requestAnimationFrame setInterval
             cancelAnimationFrame clearInterval createIntervalLoop
             createRAFLoop];
          cbn [final_state final_world thrown
               objects active targetFPS timer frame mode tolerance lastUpdate
               jitter totalJitter droppedFrame loop
               set_objects set_active set_frame set_lastUpdate set_jitter
               set_totalJitter set_droppedFrame set_loop
               loop_kind loop_timer loop_raf loop_startTime
               set_loop_timer set_loop_raf set_loop_startTime
               clock reads intervals rafs next_handle registrants calls
               set_reads set_intervals set_rafs set_next_handle set_calls log]).

Lemma log_nil w : log [] w = w.
Proof. destruct w; unfold log, set_calls; simpl. by rewrite app_nil_r. Qed.

Lemma log_log l1 l2 w : log l2 (log l1 w) = log (l1 ++ l2) w.
Proof. unfold log, set_calls; simpl. by rewrite app_assoc. Qed.

Lemma for_of_log (sel : (addr -> Registrant) -> addr -> list event)
    (body : addr -> M unit) :
  (forall obj s w, body obj s w = Return tt s (log (sel (registrants w) obj) w)) ->
  forall l s w,
    for_of l body s w = Return tt s (log (flat_map (sel (registrants w)) l) w).
Proof.
  intros Hbody l. induction l as [|obj l IH]; intros s w; simpl.
  - by rewrite log_nil.
  - unfold bind. rewrite Hbody, IH, log_log. reflexivity.
Qed.

(** [update] always returns; it assigns three fields and records one tick
    followed by the calls of the three phases. *)
Lemma update_eq now s w :
  update now s w =
  Return tt (after_update now s)
    (log (tick_calls (registrants w) (sub now (to_number (lastUpdate s)))
            (objects s)) w).
Proof.
  set (dt := sub now (to_number (lastUpdate s))).
  unfold update, bind, this, assign, ghost_tick, effect. simpl.
  fold dt.
  rewrite (for_of_log (fun regs => early_calls regs dt)).
  2:{ intros obj s' w'. unfold bind, host, early_calls, invoke, effect, ret.
      destruct (_ && _); [reflexivity | by rewrite log_nil]. }
  simpl.
  rewrite (for_of_log (fun regs => update_calls regs dt)).
  2:{ intros obj s' w'. unfold bind, host, update_calls, invoke, effect, ret.
      destruct (_ && _); [reflexivity |].
      destruct (r_callable _); [reflexivity | by rewrite log_nil]. }
  simpl.
  rewrite (for_of_log (fun regs => late_calls regs dt)).
  2:{ intros obj s' w'. unfold bind, host, late_calls, invoke, effect, ret.
      destruct (is_function _); [reflexivity | by rewrite log_nil]. }
  unfold after_update, tick_calls. fold dt.
  f_equal. unfold log, set_calls. simpl.
  rewrite <- !app_assoc. reflexivity.
Qed.

Lemma run_app l1 l2 s w :
  run (l1 ++ l2) s w = and_then (run l1 s w) (run l2).
Proof.
  revert s w. induction l1 as [|a l1 IH]; intros s w; simpl; [reflexivity|].
  unfold bind. destruct (run_step a s w); [apply IH | reflexivity].
Qed.

(** ** Dispatch order (C5) *)

(** C5. Within one tick the dispatch routine runs the three phases in
    order, each over the whole registered set in insertion order before
    the next begins: when every registrant defines the three phases, the
    calls of one tick are all the [earlyUpdate]s, then all the [update]s,
    then all the [lateUpdate]s, each with [deltaTime].  For the set
    [A; B; C] this is A.early, B.early, C.early, A.update, B.update,
    C.update, A.late, B.late, C.late. *)
Theorem update_runs_three_phases_in_order now s w :
  (forall obj, obj ∈ objects s -> all_phases (registrants w obj)) ->
  let deltaTime := sub now (to_number (lastUpdate s)) in
  update now s w =
  Return tt (after_update now s)
    (log (Tick deltaTime
            :: map (fun obj => Call obj EarlyUpdate deltaTime) (objects s)
            ++ map (fun obj => Call obj Update deltaTime) (objects s)
            ++ map (fun obj => Call obj LateUpdate deltaTime) (objects s)) w).
Proof.
  intros Hall dt. rewrite update_eq. fold dt. unfold tick_calls.
  assert (Hphase : forall (f : addr -> list event) (p : phase),
             (forall obj, all_phases (registrants w obj) -> f obj = [Call obj p dt]) ->
             flat_map f (objects s) = map (fun obj => Call obj p dt) (objects s)).
  { intros f p Hf. induction (objects s) as [|obj l IH]; simpl; [reflexivity|].
    rewrite Hf by (apply Hall; left).
    simpl. f_equal. apply IH. intros o Ho. apply Hall. by right. }
  rewrite (Hphase (early_calls (registrants w) dt) EarlyUpdate),
          (Hphase (update_calls (registrants w) dt) Update),
          (Hphase (late_calls (registrants w) dt) LateUpdate); [reflexivity | | |].
  - intros obj (_ & _ & H). unfold late_calls. by rewrite H.
  - intros obj (_ & H & _). unfold update_calls. by rewrite H.
  - intros obj (H & _ & _). unfold early_calls. by rewrite H.
Qed.

Lemma update_runs_three_phases_in_order_witness :
  let s := set_lastUpdate (Num (of_Z 100))
             (set_objects [1; 2; 3]%nat (final_state (constructor Undefined Undefined (fake_world 0 16)))) in
  let w := fake_world 0 16 in
  let dt := of_Z 16 in
  update (of_Z 116) s w =
  Return tt (after_update (of_Z 116) s)
    (log [Tick dt;
          Call 1%nat EarlyUpdate dt; Call 2%nat EarlyUpdate dt; Call 3%nat EarlyUpdate dt;
          Call 1%nat Update dt; Call 2%nat Update dt; Call 3%nat Update dt;
          Call 1%nat LateUpdate dt; Call 2%nat LateUpdate dt; Call 3%nat LateUpdate dt] w).
Proof.
  intros s w dt.
  apply (update_runs_three_phases_in_order (of_Z 116) s w).
  intros obj _. repeat split; reflexivity.
Defined.

(** ** The registered set (C8) *)

Lemma register_eq obj s w :
  register obj s w =
  Return tt (if bool_decide (obj ∈ objects s) then s
             else set_objects (objects s ++ [obj]) s) w.
Proof.
  unfold register, bind, this. by destruct (bool_decide _).
Qed.

Lemma unregister_eq obj s w :
  unregister obj s w =
  Return tt (set_objects (filter (fun stored => stored ≠ obj) (objects s)) s) w.
Proof. reflexivity. Qed.

Lemma registry_step_spec c s w :
  exists s', run_step (registry_step c) s w = Return tt s' w
    /\ (NoDup (objects s) -> NoDup (objects s'))
    /\ (forall obj, obj ∉ objects s -> c ≠ DoRegister obj -> obj ∉ objects s')
    /\ (forall obj, c = DoUnregister obj -> obj ∉ objects s').
Proof.
  destruct c as [o|o]; simpl.
  - rewrite register_eq. eexists; split; [reflexivity|].
    case_bool_decide as Hin; simpl.
    + repeat split; auto. discriminate.
    + repeat split; try discriminate.
      * intros Hnd. apply NoDup_app. repeat split; auto.
        -- intros x Hx ->%list_elem_of_singleton. contradiction.
        -- apply NoDup_singleton.
      * intros obj Hobj Hne [H| ->%list_elem_of_singleton]%elem_of_app; [auto|].
        by apply Hne.
  - rewrite unregister_eq. eexists; split; [reflexivity|]. simpl.
    repeat split.
    + apply NoDup_filter.
    + intros obj Hobj _ [_ H]%list_elem_of_filter. auto.
    + intros obj [= ->] [H _]%list_elem_of_filter. by apply H.
Qed.

Lemma run_registry_spec cs : forall s w,
  exists s', run (registry_step <$> cs) s w = Return tt s' w
    /\ (NoDup (objects s) -> NoDup (objects s'))
    /\ (forall obj, obj ∉ objects s -> DoRegister obj ∉ cs -> obj ∉ objects s').
Proof.
  induction cs as [|c cs IH]; intros s w; simpl.
  - exists s. auto.
  - destruct (registry_step_spec c s w) as (s1 & Hrun & Hnd & Hout & _).
    destruct (IH s1 w) as (s2 & Hrun2 & Hnd2 & Hout2).
    exists s2. unfold bind. rewrite Hrun. split; [exact Hrun2|].
    split; [auto|].
    intros obj Hobj Hnot. apply Hout2.
    + apply Hout; [exact Hobj|]. intros ->. apply Hnot. left.
    + intros H. apply Hnot. by right.
Qed.

Lemma filter_absent (obj : addr) (l : list addr) :
  obj ∉ l -> filter (fun stored => stored ≠ obj) l = l.
Proof.
  induction l as [|x l IH]; intros Hout; [reflexivity|].
  rewrite filter_cons_True.
  - f_equal. apply IH. intros H. apply Hout. by right.
  - intros ->. apply Hout. left.
Qed.

(** C8. After any sequence of [register] and [unregister] calls the
    registered set holds no identity twice, and an identity that was
    unregistered and not registered again since is not in it.  On the
    resulting set, [register] appends the registrant at the end exactly
    when it is absent and otherwise changes nothing; [unregister] removes
    exactly the entries identical to its argument, changes nothing when
    there is none, and keeps the others in their order. *)
Theorem registered_set_invariant cs s w :
  NoDup (objects s) ->
  let s' := final_state (run (registry_step <$> cs) s w) in
  thrown (run (registry_step <$> cs) s w) = None
  /\ NoDup (objects s')
  /\ (forall obj pre post,
        cs = pre ++ DoUnregister obj :: post -> DoRegister obj ∉ post ->
        obj ∉ objects s')
  /\ (forall obj,
        (obj ∉ objects s' ->
         register obj s' w = Return tt (set_objects (objects s' ++ [obj]) s') w)
        /\ (obj ∈ objects s' -> register obj s' w = Return tt s' w))
  /\ (forall obj,
        unregister obj s' w =
        Return tt (set_objects (filter (fun stored => stored ≠ obj) (objects s')) s') w
        /\ (obj ∉ filter (fun stored => stored ≠ obj) (objects s'))
        /\ (forall other, other ≠ obj -> other ∈ objects s' ->
              other ∈ filter (fun stored => stored ≠ obj) (objects s'))
        /\ (filter (fun stored => stored ≠ obj) (objects s')) `sublist_of` (objects s')
        /\ (obj ∉ objects s' ->
            filter (fun stored => stored ≠ obj) (objects s') = objects s')).
Proof.
  intros Hnd s'.
  destruct (run_registry_spec cs s w) as (s1 & Hrun & Hnd1 & _).
  assert (Hs' : s' = s1) by (unfold s'; by rewrite Hrun).
  split; [by rewrite Hrun|].
  split; [rewrite Hs'; auto|].
  split.
  { intros obj pre post -> Hpost. unfold s'.
    rewrite fmap_app, run_app. simpl.
    destruct (run_registry_spec pre s w) as (s2 & -> & _ & _). simpl.
    unfold bind.
    destruct (registry_step_spec (DoUnregister obj) s2 w) as (s3 & Hun & _ & _ & Hgone).
    simpl in Hun. rewrite Hun.
    destruct (run_registry_spec post s3 w) as (s4 & Hrest & _ & Hkeep).
    unfold fmap in Hrest. rewrite Hrest. simpl.
    apply Hkeep; [by apply Hgone | exact Hpost]. }
  split.
  { intros obj. rewrite register_eq. split; intros H.
    - by rewrite bool_decide_eq_false_2.
    - by rewrite bool_decide_eq_true_2. }
  intros obj. split; [apply unregister_eq|].
  split; [intros [H _]%list_elem_of_filter; by apply H|].
  split; [intros other Hne Hin; by apply list_elem_of_filter|].
  split; [apply sublist_filter | apply filter_absent].
Qed.

Lemma registered_set_invariant_witness :
  let cs := [DoRegister 1; DoRegister 2; DoRegister 1; DoUnregister 1;
             DoRegister 3; DoUnregister 7]%nat in
  let w := fake_world 0 16 in
  let s := final_state (constructor Undefined Undefined w) in
  objects (final_state (run (registry_step <$> cs) s w)) = [2; 3]%nat
  /\ NoDup (objects (final_state (run (registry_step <$> cs) s w)))
  /\ 1%nat ∉ objects (final_state (run (registry_step <$> cs) s w)).
Proof.
  intros cs w s.
  assert (Hnd : NoDup (objects s)) by (vm_compute; constructor).
  destruct (registered_set_invariant cs s w Hnd) as (_ & Hnodup & Hgone & _).
  split; [reflexivity|]. split; [exact Hnodup|].
  apply (Hgone 1%nat [DoRegister 1; DoRegister 2; DoRegister 1]%nat
           [DoRegister 3; DoUnregister 7]%nat); [reflexivity|].
  intros H. apply list_elem_of_In in H. simpl in H.
  destruct H as [H|[H|H]]; [discriminate H | discriminate H | exact H].
Defined.

(** ** The two drivers, as equations *)

Lemma interval_update_eq s w :
  interval_update s w =
  let now := clock w (reads w) in
  Return tt (after_update now (set_frame (add (frame s) (of_Z 1)) s))
    (log (tick_calls (registrants w) (sub now (to_number (lastUpdate s)))
            (objects s))
       (set_reads (S (reads w)) w)).
Proof.
  unfold interval_update. run_monad. by rewrite update_eq.
Qed.

Lemma raf_update_eq s w d :
  loop s = Some d ->
  raf_update s w =
  let now := clock w (reads w) in
  let frame' := elapsed_frames now d s in
  Return tt
    (set_loop (Some (set_loop_raf (Some (next_handle w)) d))
       (if eligible frame' s then after_raf_tick now frame' s else s))
    (set_next_handle (S (next_handle w))
       (set_rafs (rafs w ++ [(next_handle w, loop_kind d)])
          (log (if eligible frame' s
                then tick_calls (registrants w)
                       (sub now (to_number (lastUpdate s))) (objects s)
                else [])
             (set_reads (S (reads w)) w)))).
Proof.
  intros Hloop.
  unfold raf_update, eligible, elapsed_frames, after_raf_tick.
  run_monad. rewrite Hloop.
  destruct (negb _ || gt _ _); run_monad.
  - rewrite update_eq. unfold after_update.
    run_monad. rewrite Hloop. run_monad. rewrite Hloop. reflexivity.
  - rewrite Hloop. run_monad. rewrite Hloop. by rewrite log_nil.
Qed.

Lemma raf_update_no_loop s w :
  loop s = None ->
  raf_update s w = Throw TypeError s (set_reads (S (reads w)) w).
Proof. intros Hloop. unfold raf_update. run_monad. by rewrite Hloop. Qed.

(** ** Arithmetic of the host numbers *)

Lemma sub_NaN_r a : sub a NaN = NaN.
Proof. by destruct a. Qed.

Lemma elapsed_frames_undefined now d s :
  loop_startTime d = Undefined -> elapsed_frames now d s = NaN.
Proof.
  intros H. unfold elapsed_frames. rewrite H. simpl. by rewrite sub_NaN_r.
Qed.

Lemma eligible_NaN s : eligible NaN s = negb (truthy (targetFPS s)).
Proof. unfold eligible. simpl. by rewrite orb_false_r. Qed.

Lemma mode_RAF_not_INTERVAL m :
  strict_eq m UpdateLoop_RAF = true -> strict_eq m UpdateLoop_INTERVAL = false.
Proof.
  destruct m as [| |[q| | |]]; simpl; try discriminate.
  intros H%Qeq_bool_iff. apply not_true_is_false.
  intros H0%Qeq_bool_iff. rewrite H in H0. discriminate H0.
Qed.

Lemma filter_is_tick_early regs dt objs :
  filter is_tick (flat_map (early_calls regs dt) objs) = [].
Proof.
  induction objs as [|obj l IH]; simpl; [reflexivity|].
  rewrite filter_app, IH, app_nil_r. unfold early_calls.
  by destruct (_ && _).
Qed.

Lemma filter_is_tick_update regs dt objs :
  filter is_tick (flat_map (update_calls regs dt) objs) = [].
Proof.
  induction objs as [|obj l IH]; simpl; [reflexivity|].
  rewrite filter_app, IH, app_nil_r. unfold update_calls.
  destruct (_ && _); [reflexivity|]. by destruct (r_callable _).
Qed.

Lemma filter_is_tick_late regs dt objs :
  filter is_tick (flat_map (late_calls regs dt) objs) = [].
Proof.
  induction objs as [|obj l IH]; simpl; [reflexivity|].
  rewrite filter_app, IH, app_nil_r. unfold late_calls.
  by destruct (is_function _).
Qed.

(** One dispatch is one tick, whatever the registered set. *)
Lemma ticks_tick_calls regs dt objs :
  filter is_tick (tick_calls regs dt objs) = [Tick dt].
Proof.
  unfold tick_calls. rewrite filter_cons_True by reflexivity.
  by rewrite !filter_app, filter_is_tick_early, filter_is_tick_update,
    filter_is_tick_late.
Qed.

Lemma ticks_log l w : ticks (log l w) = (ticks w + length (filter is_tick l))%nat.
Proof. unfold ticks, log. simpl. by rewrite filter_app, length_app. Qed.

(** ** [start], as equations *)

(** On a mode that is neither 0 nor 1, [start] has made its first three
    assignments and read the clock once when it throws. *)
Lemma start_invalid_eq s w :
  timer s = Null ->
  strict_eq (mode s) UpdateLoop_INTERVAL = false ->
  strict_eq (mode s) UpdateLoop_RAF = false ->
  start s w =
  Throw InvalidModeError (reset_for_start (clock w (reads w)) s)
    (set_reads (S (reads w)) w).
Proof.
  intros Ht Hi Hr. unfold start. run_monad.
  rewrite Ht. simpl. rewrite Hi, Hr. reflexivity.
Qed.

(** In refresh-sync mode [start] returns; the driver object it leaves,
    what it queues, and what it dispatches. *)
Lemma start_raf_facts s w :
  timer s = Null ->
  strict_eq (mode s) UpdateLoop_RAF = true ->
  thrown (start s w) = None
  /\ loop (final_state (start s w)) =
       Some (mkDriver RAFUpdate None (Some (next_handle w))
               (Num (clock w (S (S (reads w))))))
  /\ active (final_state (start s w)) = true
  /\ rafs (final_world (start s w)) = rafs w ++ [(next_handle w, RAFUpdate)]
  /\ intervals (final_world (start s w)) = intervals w
  /\ clock (final_world (start s w)) = clock w
  /\ ticks (final_world (start s w)) =
       (ticks w + (if truthy (targetFPS s) then 0 else 1))%nat
  /\ (truthy (targetFPS s) = true ->
      totalJitter (final_state (start s w)) = Num (of_Z 0)
      /\ frame (final_state (start s w)) = of_Z (-1)
      /\ lastUpdate (final_state (start s w)) = Num (clock w (reads w))
      /\ calls (final_world (start s w)) = calls w)
  /\ (truthy (targetFPS s) = false -> frame (final_state (start s w)) = NaN).
Proof.
  intros Ht Hm. unfold start. run_monad.
  rewrite Ht. simpl. rewrite (mode_RAF_not_INTERVAL _ Hm), Hm.
  run_monad. unfold loop_start. run_monad. simpl run_closure.
  erewrite raf_update_eq by reflexivity. cbv zeta.
  rewrite elapsed_frames_undefined by reflexivity.
  rewrite eligible_NaN. run_monad.
  destruct (truthy (targetFPS s)); simpl negb; cbv iota; run_monad.
  - rewrite app_nil_r. unfold ticks. simpl. rewrite app_nil_r.
    repeat split; auto; discriminate.
  - unfold ticks. simpl calls.
    rewrite filter_app, ticks_tick_calls, length_app.
    repeat split; auto; discriminate.
Qed.

(** An outcome that is not a throw is a return. *)
Lemma returned (o : outcome unit) :
  thrown o = None -> o = Return tt (final_state o) (final_world o).
Proof. destruct o as [[] ? ?|]; [reflexivity | discriminate]. Qed.

(** ** Errors of [start] (C7) *)

(** C7. [start()] on a mode that is neither [INTERVAL] (0) nor [RAF] (1)
    throws the invalid-mode error before anything is armed: the loop,
    inactive when [start()] was called, is still inactive, it has no
    driver object that it did not have, and the host has no timer and no
    refresh callback that it did not have. *)
Theorem start_invalid_mode s w :
  timer s = Null ->
  strict_eq (mode s) UpdateLoop_INTERVAL = false ->
  strict_eq (mode s) UpdateLoop_RAF = false ->
  active s = false ->
  thrown (start s w) = Some InvalidModeError
  /\ active (final_state (start s w)) = false
  /\ loop (final_state (start s w)) = loop s
  /\ intervals (final_world (start s w)) = intervals w
  /\ rafs (final_world (start s w)) = rafs w.
Proof.
  intros Ht Hi Hr Ha. unfold start. run_monad.
  rewrite Ht. simpl. rewrite Hi, Hr. run_monad. auto.
Qed.

Lemma start_invalid_mode_witness :
  let w := fake_world 0 16 in
  let o := constructor (Num (of_Z 60)) (Num (of_Z 99)) w in
  thrown o = Some InvalidModeError
  /\ active (final_state o) = false
  /\ loop (final_state o) = None
  /\ intervals (final_world o) = []
  /\ rafs (final_world o) = [].
Proof.
  intros w o.
  apply (start_invalid_mode
           (mkUpdateLoop [] false (Num (of_Z 60)) Null (of_Z 0)
              (or_else (Num (of_Z 99)) UpdateLoop_INTERVAL) (Fin (1 # 10))
              Undefined Undefined Undefined None None) w);
    reflexivity.
Defined.

(** ** The first call of the refresh-sync driver (C2) *)

(** The refresh-sync driver never reassigns the start time of its loop
    object. *)
Lemma raf_update_keeps_startTime s w d :
  loop s = Some d ->
  loop_startTime <$> loop (final_state (raf_update s w))
  = Some (loop_startTime d).
Proof. intros Hl. by rewrite (raf_update_eq s w d Hl). Qed.

(** C2, as the code has it.  In refresh-sync mode [start()] runs the
    driver's [update] once, synchronously, before any refresh signal is
    awaited, and only then reads the clock for [loop.startTime].  That
    first [update] computes its frame index from a start time that is
    still [undefined], so the index is [NaN] and the comparison with the
    current frame is false: a tick is dispatched in [start()] exactly when
    [targetFPS] is falsy (uncapped), and none is when a rate is set.  In
    both cases one refresh callback is queued, and the start time, read
    after that first [update], is not assigned again by the driver. *)
Theorem start_refresh_sync s w :
  timer s = Null ->
  strict_eq (mode s) UpdateLoop_RAF = true ->
  let o := start s w in
  let t_start := clock w (reads w) in
  let t_update := clock w (S (reads w)) in
  let t_after := clock w (S (S (reads w))) in
  thrown o = None
  /\ calls (final_world o) =
       calls w ++ (if truthy (targetFPS s) then []
                   else tick_calls (registrants w) (sub t_update t_start)
                          (objects s))
  /\ ticks (final_world o) =
       (ticks w + (if truthy (targetFPS s) then 0 else 1))%nat
  /\ loop (final_state o) =
       Some (mkDriver RAFUpdate None (Some (next_handle w)) (Num t_after))
  /\ rafs (final_world o) = rafs w ++ [(next_handle w, RAFUpdate)]
  /\ intervals (final_world o) = intervals w
  /\ reads (final_world o) = S (S (S (reads w)))
  /\ active (final_state o) = true
  /\ (forall s' w' d,
        loop s' = Some d ->
        loop_startTime <$> loop (final_state (raf_update s' w'))
        = Some (loop_startTime d)).
Proof.
  intros Ht Hm o t0 t1 t2.
  assert (Honce := raf_update_keeps_startTime).
  unfold o, start. run_monad.
  rewrite Ht. simpl. rewrite (mode_RAF_not_INTERVAL _ Hm), Hm.
  run_monad. unfold loop_start. run_monad. simpl run_closure.
  erewrite raf_update_eq by reflexivity. cbv zeta.
  rewrite elapsed_frames_undefined by reflexivity.
  rewrite eligible_NaN. run_monad.
  destruct (truthy (targetFPS s)); simpl negb; cbv iota; run_monad.
  - rewrite app_nil_r. unfold ticks. simpl. rewrite app_nil_r.
    repeat split; auto.
  - fold t0 t1 t2. unfold ticks. simpl calls.
    rewrite filter_app, ticks_tick_calls, length_app.
    repeat split; auto.
Qed.

Lemma start_refresh_sync_witness :
  let w := fake_world 0 16 in
  let o := constructor Null UpdateLoop_RAF w in
  thrown o = None
  /\ calls (final_world o) = [Tick (of_Z 16)]
  /\ ticks (final_world o) = 1%nat
  /\ loop (final_state o) =
       Some (mkDriver RAFUpdate None (Some 0%nat) (Num (of_Z 32)))
  /\ rafs (final_world o) = [(0%nat, RAFUpdate)]
  /\ intervals (final_world o) = []
  /\ reads (final_world o) = 3%nat
  /\ active (final_state o) = true
  /\ (forall s' w' d,
        loop s' = Some d ->
        loop_startTime <$> loop (final_state (raf_update s' w'))
        = Some (loop_startTime d)).
Proof.
  intros w o.
  apply (start_refresh_sync
           (mkUpdateLoop [] false Null Null (of_Z 0)
              (or_else UpdateLoop_RAF UpdateLoop_INTERVAL) (Fin (1 # 10))
              Undefined Undefined Undefined None None) w);
    reflexivity.
Defined.

(** With a rate set, [start()] in refresh-sync mode dispatches no tick:
    the first dispatch waits for the first eligible refresh signal. *)
Lemma start_refresh_sync_capped_dispatches_nothing :
  ticks (final_world (constructor (Num (of_Z 60)) UpdateLoop_RAF (fake_world 0 16)))
  ≠ 1%nat.
Proof. vm_compute. discriminate. Qed.

(** ** Starting a loop that runs (C1) *)

(** A loop built with [new UpdateLoop(60)] runs one tick (20 ms after its
    start, so that [totalJitter] is 4 and [frame] is 0), and [start()] is
    called again.  The call is not a no-op: [totalJitter] and [frame] are
    reset, and a second timer is armed next to the first, which stays
    armed.  The guard of [start] reads [this.timer], which is still
    [null]. *)
Lemma start_on_running_loop_is_not_a_noop :
  let w := fake_world 0 20 in
  let running :=
    and_then (constructor (Num (of_Z 60)) UpdateLoop_INTERVAL w)
      (fire_interval 0) in
  let again := and_then running start in
  thrown again = None
  /\ (totalJitter (final_state running) = Num (of_Z 4)
      /\ frame (final_state running) = of_Z 0
      /\ timer (final_state running) = Null
      /\ intervals (final_world running) = [(0%nat, (IntervalUpdate, of_Z 16))])
  /\ (totalJitter (final_state again) = Num (of_Z 0)
      /\ frame (final_state again) = of_Z (-1)
      /\ timer (final_state again) = Null
      /\ intervals (final_world again) =
           [(0%nat, (IntervalUpdate, of_Z 16));
            (1%nat, (IntervalUpdate, of_Z 16))])
  /\ final_state again ≠ final_state running
  /\ intervals (final_world again) ≠ intervals (final_world running).
Proof.
  vm_compute. repeat split; try reflexivity; intros H; discriminate H.
Qed.

(** C1, as the code has it.  [start()] assigns [totalJitter = 0] and
    [frame = -1] on every call, before its guard is looked at and whether
    or not a driver is running.  Unless the loop is in refresh-sync mode
    without a rate (where [start()] itself dispatches a tick), it leaves
    [start()] with these two values, whatever they were before. *)
Theorem start_resets_counters s w :
  (strict_eq (mode s) UpdateLoop_RAF = true -> truthy (targetFPS s) = true) ->
  totalJitter (final_state (start s w)) = Num (of_Z 0)
  /\ frame (final_state (start s w)) = of_Z (-1).
Proof.
  intros Hcapped. unfold start. run_monad.
  destruct (strict_eq (timer s) Null); [|split; reflexivity].
  run_monad.
  destruct (strict_eq (mode s) UpdateLoop_INTERVAL) eqn:Hi.
  { unfold loop_start. run_monad. split; reflexivity. }
  destruct (strict_eq (mode s) UpdateLoop_RAF) eqn:Hr;
    [|run_monad; split; reflexivity].
  run_monad. unfold loop_start. run_monad. simpl run_closure.
  erewrite raf_update_eq by reflexivity. cbv zeta.
  rewrite elapsed_frames_undefined by reflexivity.
  rewrite eligible_NaN. run_monad. rewrite (Hcapped eq_refl).
  run_monad. split; reflexivity.
Qed.

Lemma start_resets_counters_witness :
  let w := fake_world 0 20 in
  let running :=
    and_then (constructor (Num (of_Z 60)) UpdateLoop_INTERVAL w)
      (fire_interval 0) in
  totalJitter (final_state running) = Num (of_Z 4)
  /\ frame (final_state running) = of_Z 0
  /\ active (final_state running) = true
  /\ totalJitter (final_state (start (final_state running) (final_world running)))
       = Num (of_Z 0)
  /\ frame (final_state (start (final_state running) (final_world running)))
       = of_Z (-1).
Proof.
  intros w running.
  split; [reflexivity|]. split; [reflexivity|]. split; [reflexivity|].
  apply (start_resets_counters (final_state running) (final_world running)).
  intros H. discriminate H.
Defined.

(** Whatever the state, [start] in fixed-interval mode resets the two
    counters and arms one more timer; nothing is cleared. *)
Lemma start_interval_eq s w :
  timer s = Null ->
  strict_eq (mode s) UpdateLoop_INTERVAL = true ->
  start s w =
  Return tt
    (set_loop (Some (mkDriver IntervalUpdate (Some (next_handle w)) None Undefined))
       (set_active true (reset_for_start (clock w (reads w)) s)))
    (set_next_handle (S (next_handle w))
       (set_intervals
          (intervals w ++ [(next_handle w, (IntervalUpdate, delay s))])
          (set_reads (S (reads w)) w))).
Proof.
  intros Ht Hm. unfold start. run_monad. rewrite Ht. simpl. rewrite Hm.
  run_monad. unfold loop_start. run_monad. reflexivity.
Qed.

(** ** Dropped frames (C3) *)

(** A frame index that passes the test [frame > this.frame] never passes
    [this.frame - frame >= 2]. *)
Lemma dropped_frame_test_fails f f' :
  gt f' f = true -> ge (sub f f') (of_Z 2) = false.
Proof.
  destruct f as [p| | |], f' as [q| | |]; simpl; try discriminate; auto.
  intros H. apply negb_true_iff in H.
  apply not_true_is_false. intros H2%Qle_bool_iff.
  rewrite Qred_correct in H2.
  assert (Hle : q <= p) by (unfold inject_Z in H2; lra).
  apply Qle_bool_iff in Hle. congruence.
Qed.

(** With a rate set, an eligible refresh signal always records
    [droppedFrame = false], however many intervals went by. *)
Lemma raf_update_capped_never_flags s w d :
  loop s = Some d ->
  truthy (targetFPS s) = true ->
  droppedFrame (final_state (raf_update s w)) =
  if eligible (elapsed_frames (clock w (reads w)) d s) s
  then Some false else droppedFrame s.
Proof.
  intros Hl Ht. rewrite (raf_update_eq s w d Hl). cbv zeta.
  destruct (eligible _ s) eqn:He; [|reflexivity].
  unfold after_raf_tick, after_update. run_monad.
  unfold eligible in He. rewrite Ht in He. simpl in He.
  by rewrite (dropped_frame_test_fails _ _ He).
Qed.

(** C3, at a failing input.  Refresh-sync mode at 60 ticks per second
    (interval 16 ms).  The first refresh signal, 16 ms after the start,
    dispatches frame 1; the next one comes at 64 ms and dispatches frame
    4, three intervals after the previous dispatched tick.  The flag is
    set on that tick, and it is set to [false]. *)
Theorem dropped_frame_false_after_skipped_intervals :
  let started := constructor (Num (of_Z 60)) UpdateLoop_RAF skipping_world in
  let first := and_then started refresh_signal in
  let second := and_then first refresh_signal in
  thrown second = None
  /\ frame (final_state first) = of_Z 1
  /\ frame (final_state second) = of_Z 4
  /\ ticks (final_world first) = 1%nat
  /\ ticks (final_world second) = 2%nat
  /\ droppedFrame (final_state second) = Some false.
Proof. vm_compute. repeat split; reflexivity. Qed.

(** ** Stopping (C4) *)

(** C4, at a failing input, in both modes.  [new UpdateLoop(60, mode)],
    one registrant, [start()] called again, then [stop()].  [stop()]
    clears the timer (cancels the refresh callback) of the second
    [start()] only; the one armed by the constructor is still with the
    host, and when it fires the registrant is called although the loop is
    inactive. *)
Theorem stop_leaves_first_driver_running :
  let script := [CallRegister 1%nat; CallStart; CallStop] in
  let stopped_i :=
    and_then (constructor (Num (of_Z 60)) UpdateLoop_INTERVAL (fake_world 0 16))
      (run script) in
  let stopped_r :=
    and_then (constructor (Num (of_Z 60)) UpdateLoop_RAF (fake_world 0 16))
      (run script) in
  (thrown stopped_i = None
   /\ active (final_state stopped_i) = false
   /\ calls (final_world stopped_i) = []
   /\ intervals (final_world stopped_i) = [(0%nat, (IntervalUpdate, of_Z 16))]
   /\ calls (final_world (and_then stopped_i (fire_interval 0))) =
        [Tick (of_Z 16); Call 1%nat EarlyUpdate (of_Z 16);
         Call 1%nat Update (of_Z 16); Call 1%nat LateUpdate (of_Z 16)])
  /\ (thrown stopped_r = None
      /\ active (final_state stopped_r) = false
      /\ calls (final_world stopped_r) = []
      /\ rafs (final_world stopped_r) = [(0%nat, RAFUpdate)]
      /\ calls (final_world (and_then stopped_r refresh_signal)) =
           [Tick (of_Z 48); Call 1%nat EarlyUpdate (of_Z 48);
            Call 1%nat Update (of_Z 48); Call 1%nat LateUpdate (of_Z 48)]
      /\ active (final_state (and_then stopped_r refresh_signal)) = false).
Proof. vm_compute. repeat split; reflexivity. Qed.


(** A loop that was started once: [stop()] leaves nothing armed, in both
    modes, so no registrant is called until the next [start()]. *)
Lemma stop_after_single_start t0 ms fps m :
  m = UpdateLoop_INTERVAL \/ m = UpdateLoop_RAF ->
  let stopped := and_then (constructor fps m (fake_world t0 ms)) stop in
  thrown stopped = None
  /\ active (final_state stopped) = false
  /\ intervals (final_world stopped) = []
  /\ rafs (final_world stopped) = [].
Proof.
  intros [-> | ->] stopped; unfold stopped, constructor.
  - rewrite start_interval_eq by reflexivity.
    unfold and_then, stop, loop_stop. run_monad.
    unfold drop_handle. simpl.
    rewrite filter_cons_False by (simpl; intros H; by apply H).
    repeat split; reflexivity.
  - destruct (start_raf_facts
                (mkUpdateLoop [] false
                   (match fps with Undefined => Num (of_Z 60) | v => v end)
                   Null (of_Z 0) (or_else UpdateLoop_RAF UpdateLoop_INTERVAL)
                   (Fin (1 # 10)) Undefined Undefined Undefined None None)
                (fake_world t0 ms) eq_refl eq_refl)
      as (Hok & Hl & _ & Hr & Hi & _).
    rewrite (returned _ Hok).
    unfold and_then, stop, loop_stop.
    run_monad. rewrite Hl. run_monad. rewrite Hl. run_monad.
    rewrite Hr, Hi. unfold drop_handle. simpl.
    rewrite filter_cons_False by (simpl; intros H; by apply H).
    repeat split; reflexivity.
Qed.

(** ** The average jitter (C6) *)

(** With [frame] at 0 the average is a division by zero. *)
Lemma averageJitter_frame_zero s :
  frame s = of_Z 0 -> is_finite (averageJitter s) = false.
Proof.
  intros H. unfold averageJitter. rewrite H.
  destruct (to_number (totalJitter s)) as [q| | |]; simpl; auto.
  by destruct (q ?= 0).
Qed.

(** C6, at a failing input.  [new UpdateLoop(60)], and the timer fires
    once, 20 ms after the start.  That tick's jitter is 4 and
    [totalJitter] equals it, but [frame] is 0 after the first tick, so
    [averageJitter] is [4 / 0], positive infinity, and not 4. *)
Theorem averageJitter_after_one_tick_is_not_the_jitter :
  let o :=
    and_then (constructor (Num (of_Z 60)) UpdateLoop_INTERVAL (fake_world 0 20))
      (fire_interval 0) in
  thrown o = None
  /\ ticks (final_world o) = 1%nat
  /\ jitter (final_state o) = Num (of_Z 4)
  /\ totalJitter (final_state o) = jitter (final_state o)
  /\ frame (final_state o) = of_Z 0
  /\ averageJitter (final_state o) = PInf
  /\ Num (averageJitter (final_state o)) ≠ jitter (final_state o).
Proof. vm_compute. repeat split; try reflexivity. discriminate. Qed.

(** ** Fixed-interval mode at 60 ticks per second (C9) *)

Lemma add_of_Z a b : add (of_Z a) (of_Z b) = of_Z (a + b).
Proof.
  unfold add, of_Z. f_equal.
  rewrite (Qred_complete _ (inject_Z (a + b))) by (by rewrite inject_Z_plus).
  apply inject_Z_Qred.
Qed.

Lemma sub_of_Z a b : sub (of_Z a) (of_Z b) = of_Z (a - b).
Proof.
  unfold sub, of_Z. f_equal.
  rewrite (Qred_complete _ (inject_Z (a - b))).
  - apply inject_Z_Qred.
  - unfold Z.sub. by rewrite inject_Z_plus, inject_Z_opp.
Qed.

Lemma steady_step t0 k s w :
  steady t0 k s w ->
  exists s' w',
    fire_interval 0 s w = Return tt s' w'
    /\ steady t0 (S k) s' w'
    /\ jitter s' = Num (of_Z 0).
Proof.
  intros (Hc & Hr & Hi & Ht & Hf & Hfr & Hl).
  unfold fire_interval. run_monad. rewrite Hi. simpl.
  rewrite interval_update_eq. cbv zeta.
  do 2 eexists. split; [reflexivity|].
  assert (Hnow : clock w (reads w) = of_Z (t0 + 16 * Z.of_nat (S k)))
    by (by rewrite Hc, Hr).
  assert (Hdelay : delay s = of_Z 16)
    by (unfold delay; by rewrite Hf).
  assert (Hdt : sub (clock w (reads w)) (to_number (lastUpdate s)) = of_Z 16).
  { rewrite Hnow, Hl. simpl to_number. rewrite sub_of_Z. f_equal. lia. }
  unfold steady, after_update. run_monad.
  rewrite ticks_log, ticks_tick_calls. unfold ticks in *. simpl calls.
  rewrite Hnow, Hfr, add_of_Z.
  change (delay _) with (delay s). rewrite Hdelay.
  repeat split; auto.
  - simpl. lia.
  - f_equal. lia.
  - rewrite <- Hnow, Hdt. reflexivity.
Qed.

Lemma steady_run t0 n : forall k s w,
  steady t0 k s w ->
  exists s' w',
    run (replicate n (TimerFires 0%nat)) s w = Return tt s' w'
    /\ steady t0 (k + n) s' w'
    /\ (forall s1 w1, fire_interval 0 s' w' = Return tt s1 w1 ->
          jitter s1 = Num (of_Z 0)).
Proof.
  induction n as [|n IH]; intros k s w Hs.
  - exists s, w. rewrite Nat.add_0_r. split; [reflexivity|]. split; [exact Hs|].
    intros s1 w1 H1. destruct (steady_step _ _ _ _ Hs) as (s2 & w2 & H2 & _ & Hj).
    congruence.
  - destruct (steady_step _ _ _ _ Hs) as (s1 & w1 & H1 & Hs1 & _).
    destruct (IH _ _ _ Hs1) as (s2 & w2 & H2 & Hs2 & Hj).
    exists s2, w2. simpl. unfold bind. rewrite H1.
    split; [exact H2|]. split; [|exact Hj].
    by replace (k + S n)%nat with (S k + n)%nat by lia.
Qed.

Lemma steady_constructor t0 :
  exists s w,
    constructor (Num (of_Z 60)) UpdateLoop_INTERVAL (fake_world t0 16)
    = Return tt s w
    /\ steady t0 0 s w.
Proof.
  unfold constructor. rewrite start_interval_eq by reflexivity.
  do 2 eexists. split; [reflexivity|].
  unfold steady. simpl. repeat split; reflexivity.
Qed.

(** C9. Fixed-interval mode at 60 ticks per second on a clock that
    advances by 16 ms from one reading to the next: after [N] firings of
    the timer the loop has dispatched [N] ticks and [frame] is [N - 1],
    and the jitter of every tick (the one of firing [N + 1], for every
    [N]) is [|16 - floor(1000 / 60)|], which is 0. *)
Theorem fixed_interval_60_frame_and_jitter (t0 : Z) (N : nat) :
  let fired n :=
    and_then (constructor (Num (of_Z 60)) UpdateLoop_INTERVAL (fake_world t0 16))
      (run (replicate n (TimerFires 0%nat))) in
  thrown (fired N) = None
  /\ ticks (final_world (fired N)) = N
  /\ frame (final_state (fired N)) = of_Z (Z.of_nat N - 1)
  /\ jitter (final_state (fired (S N))) =
       Num (abs (sub (of_Z 16) (floor (div (of_Z 1000) (of_Z 60)))))
  /\ abs (sub (of_Z 16) (floor (div (of_Z 1000) (of_Z 60)))) = of_Z 0.
Proof.
  intros fired.
  destruct (steady_constructor t0) as (s0 & w0 & Hc & Hs0).
  destruct (steady_run t0 N 0 s0 w0 Hs0) as (s1 & w1 & Hrun & Hs1 & Hj).
  assert (HN : fired N = Return tt s1 w1).
  { unfold fired. rewrite Hc. exact Hrun. }
  assert (HSN : exists s2 w2, fired (S N) = Return tt s2 w2
                              /\ jitter s2 = Num (of_Z 0)).
  { destruct (steady_step _ _ _ _ Hs1) as (s2 & w2 & Hf & _ & Hj2).
    exists s2, w2. split; [|exact Hj2].
    unfold fired. rewrite Hc. unfold and_then at 1.
    replace (S N) with (N + 1)%nat by lia.
    rewrite replicate_add, run_app, Hrun. simpl.
    unfold bind. by rewrite Hf. }
  destruct HSN as (s2 & w2 & HSN & Hj2).
  rewrite HN, HSN. simpl.
  destruct Hs1 as (_ & _ & _ & Ht & _ & Hfr & _).
  repeat split; auto.
Qed.

(** ** Refresh-sync mode without a rate (C10) *)

(** The eligibility test of the refresh-sync driver accepts every frame
    index when [targetFPS] is falsy. *)
Lemma falsy_rate_always_eligible frame' s :
  truthy (targetFPS s) = false -> eligible frame' s = true.
Proof. intros H. unfold eligible. by rewrite H. Qed.

Lemma uncapped_step s w :
  uncapped_armed s w ->
  exists s' w',
    refresh_signal s w = Return tt s' w'
    /\ uncapped_armed s' w'
    /\ ticks w' = S (ticks w).
Proof.
  intros (d & h & Hl & Hk & Hf & Hr).
  unfold refresh_signal. run_monad. rewrite Hr. simpl run_frame_callbacks.
  run_monad. rewrite Hr.
  rewrite bool_decide_eq_true_2 by (simpl; left).
  run_monad. unfold reported. simpl run_closure.
  rewrite (raf_update_eq _ _ d Hl). cbv zeta.
  rewrite falsy_rate_always_eligible by exact Hf.
  do 2 eexists. split; [reflexivity|]. split.
  - exists (set_loop_raf (Some (next_handle w)) d), (next_handle w).
    unfold after_raf_tick, after_update. run_monad.
    rewrite Hr, Hk. unfold drop_handle.
    rewrite filter_cons_False by (simpl; intros H; by apply H).
    repeat split; auto.
  - unfold ticks. run_monad.
    rewrite filter_app, ticks_tick_calls, length_app. simpl. lia.
Qed.

Lemma uncapped_run n : forall s w,
  uncapped_armed s w ->
  exists s' w',
    run (replicate n Refresh) s w = Return tt s' w'
    /\ uncapped_armed s' w'
    /\ ticks w' = (ticks w + n)%nat.
Proof.
  induction n as [|n IH]; intros s w Hs.
  - exists s, w. rewrite Nat.add_0_r. auto.
  - destruct (uncapped_step _ _ Hs) as (s1 & w1 & H1 & Hs1 & Ht1).
    destruct (IH _ _ Hs1) as (s2 & w2 & H2 & Hs2 & Ht2).
    exists s2, w2. simpl. unfold bind. rewrite H1.
    repeat split; auto. lia.
Qed.

Lemma rate_blind_ret {A} (a : A) : rate_blind (ret a).
Proof. intros v s w _. split; reflexivity. Qed.

Lemma rate_blind_throw {A} e : rate_blind (@throw A e).
Proof. intros v s w _. split; reflexivity. Qed.

Lemma rate_blind_bind {A B} (c : M A) (k : A -> M B) :
  rate_blind c -> (forall a, rate_blind (k a)) -> rate_blind (bind c k).
Proof.
  intros Hc Hk v s w Hv. unfold bind.
  destruct (Hc v s w Hv) as [-> Hfps].
  destruct (c s w) as [a s1 w1|e s1 w1]; simpl in *; [|auto].
  rewrite <- Hfps in Hv. destruct (Hk a v s1 w1 Hv) as [-> Hfps1].
  split; [reflexivity | congruence].
Qed.

Lemma rate_blind_this {A} (f : UpdateLoop -> A) :
  (forall v s, agree v (targetFPS s) -> f (set_targetFPS v s) = f s) ->
  rate_blind (this f).
Proof. intros Hf v s w Hv. unfold this. by rewrite Hf. Qed.

Lemma rate_blind_assign (f : UpdateLoop -> UpdateLoop) :
  (forall v s, f (set_targetFPS v s) = set_targetFPS v (f s)) ->
  (forall s, targetFPS (f s) = targetFPS s) ->
  rate_blind (assign f).
Proof. intros Hf Hfps v s w Hv. unfold assign. simpl. by rewrite Hf, Hfps. Qed.

Lemma rate_blind_host {A} (f : World -> A) : rate_blind (host f).
Proof. intros v s w _. split; reflexivity. Qed.

Lemma rate_blind_effect (f : World -> World) : rate_blind (effect f).
Proof. intros v s w _. split; reflexivity. Qed.

Lemma rate_blind_reported (c : M unit) :
  rate_blind c -> rate_blind (reported c).
Proof.
  intros Hc v s w Hv. unfold reported.
  destruct (Hc v s w Hv) as [-> Hfps].
  destruct (c s w); simpl in *; auto.
Qed.

Lemma rate_blind_performance_now : rate_blind performance_now.
Proof. intros v s w _. split; reflexivity. Qed.

Lemma rate_blind_setInterval c ms : rate_blind (setInterval c ms).
Proof. intros v s w _. split; reflexivity. Qed.

Lemma rate_blind_clearInterval h : rate_blind (clearInterval h).
Proof. destruct h; intros v s w _; split; reflexivity. Qed.

Lemma rate_blind_cancelAnimationFrame h : rate_blind (cancelAnimationFrame h).
Proof. destruct h; intros v s w _; split; reflexivity. Qed.

Lemma delay_agree v s :
  agree v (targetFPS s) -> delay (set_targetFPS v s) = delay s.
Proof. intros [_ H]. unfold delay. simpl. by rewrite H. Qed.

Lemma after_update_agree now v s :
  agree v (targetFPS s) ->
  after_update now (set_targetFPS v s) = set_targetFPS v (after_update now s).
Proof.
  intros Hv. unfold after_update. cbv zeta.
  rewrite (delay_agree _ _ Hv). reflexivity.
Qed.

Lemma rate_blind_update now : rate_blind (update now).
Proof.
  intros v s w Hv. rewrite !update_eq. simpl.
  by rewrite (after_update_agree _ _ _ Hv).
Qed.

Lemma rate_blind_interval_update : rate_blind interval_update.
Proof.
  intros v s w Hv. rewrite !interval_update_eq. cbv zeta. simpl.
  change (set_frame ?f (set_targetFPS v s))
    with (set_targetFPS v (set_frame f s)).
  rewrite after_update_agree by exact Hv. split; reflexivity.
Qed.

Lemma rate_blind_raf_update : rate_blind raf_update.
Proof.
  intros v s w Hv. destruct (loop s) as [d|] eqn:Hl.
  - rewrite (raf_update_eq s w d Hl).
    rewrite (raf_update_eq (set_targetFPS v s) w d Hl). cbv zeta.
    assert (He : elapsed_frames (clock w (reads w)) d (set_targetFPS v s)
                 = elapsed_frames (clock w (reads w)) d s)
      by (unfold elapsed_frames; by rewrite (delay_agree _ _ Hv)).
    rewrite He.
    assert (Hel : forall f, eligible f (set_targetFPS v s) = eligible f s)
      by (intros f; unfold eligible; simpl; by destruct Hv as [-> _]).
    rewrite Hel. simpl.
    destruct (eligible _ s); [|split; reflexivity].
    unfold after_raf_tick.
    change (set_frame ?f (set_droppedFrame ?x (set_targetFPS v s)))
      with (set_targetFPS v (set_frame f (set_droppedFrame x s))).
    rewrite after_update_agree by exact Hv. split; reflexivity.
  - rewrite (raf_update_no_loop s w Hl).
    rewrite (raf_update_no_loop (set_targetFPS v s) w Hl).
    split; reflexivity.
Qed.

Lemma rate_blind_run_closure c : rate_blind (run_closure c).
Proof.
  destruct c; [apply rate_blind_interval_update | apply rate_blind_raf_update].
Qed.

Create HintDb blind.
#[local] Hint Resolve rate_blind_ret rate_blind_throw rate_blind_host
  rate_blind_effect rate_blind_reported rate_blind_performance_now
  rate_blind_setInterval rate_blind_clearInterval
  rate_blind_cancelAnimationFrame rate_blind_update
  rate_blind_interval_update rate_blind_raf_update rate_blind_run_closure
  delay_agree : blind.

(** Splits a sequence of monadic steps into its steps. *)
Ltac blind :=
  repeat first
    [ solve [auto with blind]
    | apply rate_blind_bind; [|intros ?]
    | apply rate_blind_this; [intros ? ? ?; try reflexivity]
    | apply rate_blind_assign; [intros ? ?; reflexivity | intros ?; reflexivity] ].

Lemma rate_blind_this_loop : rate_blind this_loop.
Proof.
  unfold this_loop. blind.
  match goal with l : option Driver |- _ => destruct l end; blind.
Qed.
#[local] Hint Resolve rate_blind_this_loop : blind.

Lemma rate_blind_assign_loop f : rate_blind (assign_loop f).
Proof. unfold assign_loop. blind. Qed.
#[local] Hint Resolve rate_blind_assign_loop : blind.

Lemma rate_blind_loop_start : rate_blind loop_start.
Proof.
  unfold loop_start. blind.
  destruct (loop_kind _); unfold loop_update; blind.
Qed.
#[local] Hint Resolve rate_blind_loop_start : blind.

Lemma rate_blind_start : rate_blind start.
Proof.
  unfold start, createIntervalLoop, createRAFLoop. blind.
  destruct (strict_eq _ Null); blind.
  destruct (strict_eq _ UpdateLoop_INTERVAL); blind.
  destruct (strict_eq _ UpdateLoop_RAF); blind.
Qed.

Lemma rate_blind_stop : rate_blind stop.
Proof.
  unfold stop, loop_stop. blind.
  destruct (loop_kind _); blind.
Qed.

Lemma rate_blind_register obj : rate_blind (register obj).
Proof. unfold register. blind. destruct (negb _); blind. Qed.

Lemma rate_blind_unregister obj : rate_blind (unregister obj).
Proof. unfold unregister. blind. Qed.

Lemma rate_blind_fire_interval h : rate_blind (fire_interval h).
Proof.
  unfold fire_interval. blind.
  destruct (lookup_handle h _) as [[c ?]|]; blind.
Qed.

Lemma rate_blind_run_frame_callbacks pending :
  rate_blind (run_frame_callbacks pending).
Proof.
  induction pending as [|[h c] pending IH]; simpl; blind.
  destruct (bool_decide _); blind.
Qed.
#[local] Hint Resolve rate_blind_run_frame_callbacks : blind.

Lemma rate_blind_refresh_signal : rate_blind refresh_signal.
Proof. unfold refresh_signal. blind. Qed.

Lemma rate_blind_run script : rate_blind (run script).
Proof.
  induction script as [|a script IH]; simpl; blind.
  destruct a; simpl;
    auto using rate_blind_start, rate_blind_stop, rate_blind_register,
      rate_blind_unregister, rate_blind_fire_interval,
      rate_blind_refresh_signal.
Qed.

Lemma start_keeps_targetFPS s w :
  targetFPS (final_state (start s w)) = targetFPS s.
Proof.
  destruct (rate_blind_start (targetFPS s) s w) as [_ H]; [|exact H].
  split; reflexivity.
Qed.

Lemma uncapped_constructor v w :
  truthy v = false -> v ≠ Undefined -> rafs w = [] ->
  exists s' w',
    constructor v UpdateLoop_RAF w = Return tt s' w'
    /\ uncapped_armed s' w'
    /\ ticks w' = S (ticks w).
Proof.
  intros Hv Hu Hr. unfold constructor.
  set (s0 := mkUpdateLoop _ _ _ _ _ _ _ _ _ _ _ _).
  assert (Hfps : targetFPS s0 = v) by (by destruct v).
  pose proof (start_keeps_targetFPS s0 w) as Hkeep.
  destruct (start_raf_facts s0 w eq_refl eq_refl)
    as (Hok & Hl & _ & Hq & _ & _ & Ht & _).
  rewrite Hfps in Hkeep, Ht. rewrite Hv in Ht.
  exists (final_state (start s0 w)), (final_world (start s0 w)).
  split; [exact (returned _ Hok)|]. split; [|lia].
  exists (mkDriver RAFUpdate None (Some (next_handle w))
            (Num (clock w (S (S (reads w)))))), (next_handle w).
  rewrite Hq, Hr, Hkeep. repeat split; auto.
Qed.

(** C10. In refresh-sync mode a rate of 0 is a rate left out: the loop
    built with [targetFPS = 0] runs every script of calls and host events
    exactly as the loop built with [null] does (same calls on the
    registrants, same host state, same fields but [targetFPS] itself).
    The eligibility test accepts every frame index when [targetFPS] is
    falsy; so the loop built with 0 dispatches one tick in [start()] and
    then one tick per refresh signal, and throws nothing. *)
Theorem zero_rate_is_uncapped (w : World) (script : list step) (n : nat) :
  rafs w = [] ->
  let zero := constructor (Num (of_Z 0)) UpdateLoop_RAF w in
  let null := constructor Null UpdateLoop_RAF w in
  and_then zero (run script)
    = retarget (Num (of_Z 0)) (and_then null (run script))
  /\ (forall (s : UpdateLoop) (frame' : num),
        truthy (targetFPS s) = false -> eligible frame' s = true)
  /\ thrown (and_then zero (run (replicate n Refresh))) = None
  /\ ticks (final_world zero) = S (ticks w)
  /\ ticks (final_world (and_then zero (run (replicate n Refresh))))
       = (ticks (final_world zero) + n)%nat.
Proof.
  intros Hr. cbv zeta.
  assert (Hagree : agree (Num (of_Z 0)) Null) by (split; reflexivity).
  split.
  { unfold constructor.
    change (match Num (of_Z 0) with Undefined => Num (of_Z 60) | v => v end)
      with (Num (of_Z 0)).
    change (match Null with Undefined => Num (of_Z 60) | v => v end)
      with Null.
    set (s0 := mkUpdateLoop [] false Null Null (of_Z 0)
                 (or_else UpdateLoop_RAF UpdateLoop_INTERVAL) (Fin (1 # 10))
                 Undefined Undefined Undefined None None).
    change (mkUpdateLoop [] false (Num (of_Z 0)) Null (of_Z 0)
              (or_else UpdateLoop_RAF UpdateLoop_INTERVAL) (Fin (1 # 10))
              Undefined Undefined Undefined None None)
      with (set_targetFPS (Num (of_Z 0)) s0).
    destruct (rate_blind_start (Num (of_Z 0)) s0 w Hagree) as [-> _].
    pose proof (start_keeps_targetFPS s0 w) as Hkeep.
    destruct (start s0 w) as [[] s1 w1|e s1 w1]; [|reflexivity].
    cbn [final_state] in Hkeep. cbn [retarget and_then].
    apply (rate_blind_run script). by rewrite Hkeep. }
  split; [intros s f; apply falsy_rate_always_eligible|].
  destruct (uncapped_constructor (Num (of_Z 0)) w eq_refl) as
    (s1 & w1 & Hc & Harmed & Ht); [discriminate | exact Hr |].
  destruct (uncapped_run n s1 w1 Harmed) as (s2 & w2 & Hrun & _ & Ht2).
  rewrite Hc. cbn [and_then final_world]. rewrite Hrun.
  cbn [thrown final_world]. auto.
Qed.

Lemma zero_rate_is_uncapped_witness :
  let w := fake_world 0 16 in
  let script := [CallRegister 1%nat; Refresh; Refresh; CallStop; Refresh] in
  let zero := constructor (Num (of_Z 0)) UpdateLoop_RAF w in
  let null := constructor Null UpdateLoop_RAF w in
  and_then zero (run script)
    = retarget (Num (of_Z 0)) (and_then null (run script))
  /\ ticks (final_world zero) = S (ticks w)
  /\ ticks (final_world (and_then zero (run (replicate 5 Refresh))))
       = (ticks (final_world zero) + 5)%nat.
Proof.
  intros w script zero null.
  pose proof (zero_rate_is_uncapped w script 5 eq_refl) as H.
  cbv zeta in H. destruct H as (Hsame & _ & _ & Hstart & Hrun).
  exact (conj Hsame (conj Hstart Hrun)).
Defined.

(** ** What the methods leave alone *)

Create HintDb kept.

Section Keeps.

Context {B : Type} (f : UpdateLoop -> B).
Hypothesis f_active : forall x s, f (set_active x s) = f s.
Hypothesis f_frame : forall x s, f (set_frame x s) = f s.
Hypothesis f_lastUpdate : forall x s, f (set_lastUpdate x s) = f s.
Hypothesis f_jitter : forall x s, f (set_jitter x s) = f s.
Hypothesis f_totalJitter : forall x s, f (set_totalJitter x s) = f s.
Hypothesis f_droppedFrame : forall x s, f (set_droppedFrame x s) = f s.
Hypothesis f_loop : forall x s, f (set_loop x s) = f s.

Lemma keeps_ret {A} (a : A) : keeps f (ret a).
Proof. intros s w. reflexivity. Qed.

Lemma keeps_throw {A} e : keeps f (@throw A e).
Proof. intros s w. reflexivity. Qed.

Lemma keeps_this {A} (g : UpdateLoop -> A) : keeps f (this g).
Proof. intros s w. reflexivity. Qed.

Lemma keeps_host {A} (g : World -> A) : keeps f (host g).
Proof. intros s w. reflexivity. Qed.

Lemma keeps_effect g : keeps f (effect g).
Proof. intros s w. reflexivity. Qed.

Lemma keeps_assign g : (forall s, f (g s) = f s) -> keeps f (assign g).
Proof. intros Hg s w. apply Hg. Qed.

Lemma keeps_bind {A C} (c : M A) (k : A -> M C) :
  keeps f c -> (forall a, keeps f (k a)) -> keeps f (bind c k).
Proof.
  intros Hc Hk s w. unfold bind. specialize (Hc s w).
  destruct (c s w) as [a s1 w1|e s1 w1]; simpl in *; [|exact Hc].
  by rewrite Hk.
Qed.

Lemma keeps_reported c : keeps f c -> keeps f (reported c).
Proof.
  intros Hc s w. unfold reported. specialize (Hc s w).
  by destruct (c s w).
Qed.

Lemma keeps_performance_now : keeps f performance_now.
Proof. intros s w. reflexivity. Qed.

Lemma keeps_setInterval c ms : keeps f (setInterval c ms).
Proof. intros s w. reflexivity. Qed.

Lemma keeps_requestAnimationFrame c : keeps f (requestAnimationFrame c).
Proof. intros s w. reflexivity. Qed.

Lemma keeps_clearInterval h : keeps f (clearInterval h).
Proof. destruct h; intros s w; reflexivity. Qed.

Lemma keeps_cancelAnimationFrame h : keeps f (cancelAnimationFrame h).
Proof. destruct h; intros s w; reflexivity. Qed.

Lemma keeps_update now : keeps f (update now).
Proof.
  intros s w. rewrite update_eq. unfold after_update. simpl.
  by rewrite f_totalJitter, f_jitter, f_lastUpdate.
Qed.

#[local] Hint Resolve keeps_ret keeps_throw keeps_this keeps_host keeps_effect
  keeps_reported keeps_performance_now keeps_setInterval
  keeps_requestAnimationFrame keeps_clearInterval
  keeps_cancelAnimationFrame keeps_update : kept.

Ltac kept :=
  repeat first
    [ solve [auto with kept]
    | apply keeps_bind; [|intros ?]
    | apply keeps_assign; intros ?;
      first [ apply f_active | apply f_frame | apply f_lastUpdate
            | apply f_jitter | apply f_totalJitter | apply f_droppedFrame
            | apply f_loop ] ].

Lemma keeps_this_loop : keeps f this_loop.
Proof.
  unfold this_loop. kept.
  match goal with l : option Driver |- _ => destruct l end; kept.
Qed.
#[local] Hint Resolve keeps_this_loop : kept.

Lemma keeps_assign_loop g : keeps f (assign_loop g).
Proof. unfold assign_loop. kept. Qed.
#[local] Hint Resolve keeps_assign_loop : kept.

Lemma keeps_interval_update : keeps f interval_update.
Proof. unfold interval_update. kept. Qed.

Lemma keeps_raf_update : keeps f raf_update.
Proof.
  unfold raf_update. kept.
  destruct (negb _ || gt _ _); kept.
Qed.
#[local] Hint Resolve keeps_interval_update keeps_raf_update : kept.

Lemma keeps_run_closure c : keeps f (run_closure c).
Proof. destruct c; simpl; kept. Qed.
#[local] Hint Resolve keeps_run_closure : kept.

Lemma keeps_loop_start : keeps f loop_start.
Proof.
  unfold loop_start. kept.
  destruct (loop_kind _); unfold loop_update; kept.
Qed.
#[local] Hint Resolve keeps_loop_start : kept.

Lemma keeps_start : keeps f start.
Proof.
  unfold start, createIntervalLoop, createRAFLoop. kept.
  destruct (strict_eq _ Null); kept.
  destruct (strict_eq _ UpdateLoop_INTERVAL); kept.
  destruct (strict_eq _ UpdateLoop_RAF); kept.
Qed.

Lemma keeps_stop : keeps f stop.
Proof.
  unfold stop, loop_stop. kept.
  destruct (loop_kind _); kept.
Qed.

Lemma keeps_fire_interval h : keeps f (fire_interval h).
Proof.
  unfold fire_interval. kept.
  destruct (lookup_handle h _) as [[c ?]|]; kept.
Qed.

Lemma keeps_run_frame_callbacks pending : keeps f (run_frame_callbacks pending).
Proof.
  induction pending as [|[h c] pending IH]; simpl; kept.
  destruct (bool_decide _); kept.
Qed.
#[local] Hint Resolve keeps_run_frame_callbacks : kept.

Lemma keeps_refresh_signal : keeps f refresh_signal.
Proof. unfold refresh_signal. kept. Qed.

(** Every call and host event but [register] and [unregister]. *)
Lemma keeps_run_step a : is_registry_step a = false -> keeps f (run_step a).
Proof.
  destruct a; simpl; try discriminate; intros _;
    auto using keeps_start, keeps_stop, keeps_fire_interval,
      keeps_refresh_signal.
Qed.

Lemma keeps_register obj :
  (forall x s, f (set_objects x s) = f s) -> keeps f (register obj).
Proof.
  intros Hobj s w. rewrite register_eq. simpl.
  destruct (bool_decide _); [reflexivity | apply Hobj].
Qed.

Lemma keeps_unregister obj :
  (forall x s, f (set_objects x s) = f s) -> keeps f (unregister obj).
Proof. intros Hobj s w. rewrite unregister_eq. apply Hobj. Qed.

End Keeps.

Lemma keeps_run_settings script : keeps settings (run script).
Proof.
  induction script as [|a script IH]; simpl; [apply keeps_ret|].
  apply keeps_bind; [|intros _; exact IH].
  destruct (is_registry_step a) eqn:Ha.
  - destruct a; try discriminate Ha; simpl;
      [apply keeps_register | apply keeps_unregister]; reflexivity.
  - apply keeps_run_step; [reflexivity .. | exact Ha].
Qed.

(** X1. The rate, the mode, the tolerance and [this.timer] are what the
    constructor made them, whatever calls and host events follow: no
    method and no driver assigns them.  In particular [this.timer] is
    [null] for the whole life of the object. *)
Theorem settings_fixed_by_constructor fps m w script :
  settings (final_state (and_then (constructor fps m w) (run script)))
  = (match fps with Undefined => Num (of_Z 60) | v => v end,
     Null,
     or_else m UpdateLoop_INTERVAL,
     Fin (1 # 10)).
Proof.
  unfold constructor.
  set (s0 := mkUpdateLoop _ _ _ _ _ _ _ _ _ _ _ _).
  assert (H0 : settings (final_state (start s0 w)) = settings s0).
  { apply keeps_start; reflexivity. }
  destruct (start s0 w) as [[] s1 w1|e s1 w1]; simpl in *.
  - rewrite keeps_run_settings. exact H0.
  - exact H0.
Qed.

(** X2. [start], [stop], a timer firing and a refresh signal never change
    the registered set: only [register] and [unregister] do. *)
Theorem registered_set_changed_by_registry_only script s w :
  Forall (fun a => is_registry_step a = false) script ->
  objects (final_state (run script s w)) = objects s.
Proof.
  intros Hall. revert s w.
  induction Hall as [|a script Ha _ IH]; intros s w; [reflexivity|].
  simpl. unfold bind.
  pose proof (keeps_run_step objects
                (fun _ _ => eq_refl) (fun _ _ => eq_refl) (fun _ _ => eq_refl)
                (fun _ _ => eq_refl) (fun _ _ => eq_refl) (fun _ _ => eq_refl)
                (fun _ _ => eq_refl) a Ha s w) as Hstep.
  destruct (run_step a s w) as [[] s1 w1|e s1 w1]; simpl in *.
  - by rewrite IH.
  - exact Hstep.
Qed.

Lemma registered_set_changed_by_registry_only_witness :
  let w := fake_world 0 16 in
  let built :=
    and_then (constructor (Num (of_Z 30)) UpdateLoop_RAF w)
      (run [CallRegister 4; CallRegister 2]%nat) in
  objects (final_state built) = [4; 2]%nat
  /\ objects (final_state
                (run [Refresh; CallStop; Refresh; CallStart; TimerFires 0%nat;
                      Refresh; Refresh]
                   (final_state built) (final_world built)))
     = objects (final_state built).
Proof.
  intros w built. split; [reflexivity|].
  apply (registered_set_changed_by_registry_only
           [Refresh; CallStop; Refresh; CallStart; TimerFires 0%nat;
            Refresh; Refresh]
           (final_state built) (final_world built)).
  repeat constructor.
Defined.

(** X3. The constructor throws exactly when [mode || INTERVAL] is neither
    0 nor 1, and then it throws the invalid-mode error with the loop
    inactive and nothing armed.  Otherwise it returns an active loop with
    an empty registered set and exactly one timer or refresh callback
    armed. *)
Theorem constructor_outcome fps m w :
  let o := constructor fps m w in
  let ok := valid_mode (or_else m UpdateLoop_INTERVAL) in
  thrown o = (if ok then None else Some InvalidModeError)
  /\ active (final_state o) = ok
  /\ objects (final_state o) = []
  /\ armed_count (final_world o) = (armed_count w + (if ok then 1 else 0))%nat.
Proof.
  cbv zeta. unfold constructor, valid_mode, armed_count.
  set (s0 := mkUpdateLoop _ _ _ _ _ _ _ _ _ _ _ _).
  change (or_else m UpdateLoop_INTERVAL) with (mode s0).
  assert (Hobj : objects (final_state (start s0 w)) = [])
    by (apply (keeps_start objects); reflexivity).
  destruct (strict_eq (mode s0) UpdateLoop_INTERVAL) eqn:Hi.
  - rewrite start_interval_eq in * by (reflexivity || exact Hi). simpl.
    rewrite length_app. simpl. repeat split; auto. lia.
  - destruct (strict_eq (mode s0) UpdateLoop_RAF) eqn:Hr; simpl.
    + destruct (start_raf_facts s0 w eq_refl Hr)
        as (Hok & _ & Ha & Hq & Hiv & _).
      rewrite Hok, Ha, Hq, Hiv, length_app. cbn [length].
      repeat split; auto. lia.
    + rewrite start_invalid_eq in * by (reflexivity || assumption).
      simpl. repeat split; auto.
Qed.

(** X4. A mode left out, [null] or 0 selects the fixed-interval driver:
    for a falsy [mode] the constructor does what it does for [INTERVAL],
    and arms a timer with the period [delay]. *)
Theorem constructor_default_mode fps m w :
  truthy m = false ->
  constructor fps m w = constructor fps UpdateLoop_INTERVAL w
  /\ thrown (constructor fps m w) = None
  /\ loop_kind <$> loop (final_state (constructor fps m w)) = Some IntervalUpdate
  /\ intervals (final_world (constructor fps m w)) =
       intervals w
       ++ [(next_handle w,
            (IntervalUpdate,
             floor (div (of_Z 1000)
                      (to_number (match fps with
                                  | Undefined => Num (of_Z 60)
                                  | v => v
                                  end)))))].
Proof.
  intros Hm.
  assert (Heq : constructor fps m w = constructor fps UpdateLoop_INTERVAL w).
  { unfold constructor, or_else. rewrite Hm. reflexivity. }
  rewrite Heq. split; [reflexivity|].
  unfold constructor. rewrite start_interval_eq by reflexivity.
  repeat split; reflexivity.
Qed.

Lemma constructor_default_mode_witness :
  let w := fake_world 0 16 in
  constructor Undefined Null w = constructor Undefined UpdateLoop_INTERVAL w
  /\ thrown (constructor Undefined Null w) = None
  /\ loop_kind <$> loop (final_state (constructor Undefined Null w))
     = Some IntervalUpdate
  /\ intervals (final_world (constructor Undefined Null w))
     = [(0%nat, (IntervalUpdate, of_Z 16))].
Proof.
  intros w. apply (constructor_default_mode Undefined Null w). reflexivity.
Defined.

(** ** The period and the jitter statistics *)

(** X5. For a rate that is a positive integer [n], [delay] is the integer
    quotient of 1000 by [n] (a whole number of milliseconds, rounded
    down); it is 0 for every rate above 1000. *)
Theorem delay_of_integer_rate (n : Z) s :
  (0 < n)%Z ->
  targetFPS s = Num (of_Z n) ->
  delay s = of_Z (1000 / n)
  /\ ((1000 < n)%Z -> delay s = of_Z 0).
Proof.
  intros Hn Hfps.
  assert (Hd : delay s = of_Z (1000 / n)).
  { unfold delay. rewrite Hfps. simpl to_number.
    destruct n as [|p|p]; try lia.
    unfold div, of_Z, floor. simpl Qeq_bool.
    unfold of_Z. do 2 f_equal.
    rewrite (Qfloor_comp _ _ (Qred_correct _)). reflexivity. }
  split; [exact Hd|]. intros Hbig. rewrite Hd.
  by rewrite Z.div_small by lia.
Qed.

Lemma delay_of_integer_rate_witness :
  delay (final_state (constructor (Num (of_Z 24)) Undefined (fake_world 0 16)))
  = of_Z 41.
Proof.
  apply (delay_of_integer_rate 24
           (final_state (constructor (Num (of_Z 24)) Undefined (fake_world 0 16))));
    [lia | reflexivity].
Defined.

Lemma sub_not_finite_r a b : is_finite b = false -> is_finite (sub a b) = false.
Proof. destruct a, b; simpl; auto. Qed.

Lemma abs_not_finite a : is_finite a = false -> is_finite (abs a) = false.
Proof. destruct a; simpl; auto. Qed.

Lemma add_not_finite_r a b : is_finite b = false -> is_finite (add a b) = false.
Proof. destruct a, b; simpl; auto. Qed.

Lemma div_not_finite_l a b : is_finite a = false -> is_finite (div a b) = false.
Proof.
  destruct a, b; simpl; auto; try discriminate; intros _;
    by destruct (Qle_bool 0 q).
Qed.

Lemma delay_without_rate s :
  truthy (targetFPS s) = false -> is_finite (delay s) = false.
Proof.
  unfold delay.
  destruct (targetFPS s) as [| |[q| | |]]; simpl; try discriminate; auto.
  intros Hq%negb_false_iff. rewrite Hq. reflexivity.
Qed.

(** X6. Without a rate ([targetFPS] null, 0 or otherwise falsy) the period
    is not a finite number, and neither are the statistics: after every
    tick [jitter], [totalJitter] and [averageJitter] are an infinity or
    [NaN], in both modes. *)
Theorem statistics_without_rate now s w :
  truthy (targetFPS s) = false ->
  let s' := final_state (update now s w) in
  is_finite (delay s) = false
  /\ is_finite (to_number (jitter s')) = false
  /\ is_finite (to_number (totalJitter s')) = false
  /\ is_finite (averageJitter s') = false.
Proof.
  intros Hf. cbv zeta. rewrite update_eq.
  pose proof (delay_without_rate s Hf) as Hd.
  unfold averageJitter, after_update. simpl.
  split; [exact Hd|].
  assert (Hj : is_finite
                 (abs (sub (sub now (to_number (lastUpdate s))) (delay s)))
               = false)
    by (apply abs_not_finite, sub_not_finite_r, Hd).
  split; [exact Hj|].
  split; [by apply add_not_finite_r|].
  by apply div_not_finite_l, add_not_finite_r.
Qed.

Lemma statistics_without_rate_witness :
  let o := constructor Null UpdateLoop_RAF (fake_world 0 16) in
  let s' := final_state (update (of_Z 100) (final_state o) (final_world o)) in
  jitter s' = Num PInf /\ totalJitter s' = Num PInf
  /\ is_finite (averageJitter s') = false.
Proof.
  intros o s'.
  destruct (statistics_without_rate (of_Z 100) (final_state o) (final_world o)
              eq_refl) as (_ & _ & _ & Havg).
  split; [reflexivity|]. split; [reflexivity | exact Havg].
Defined.

Lemma Qabs_Qred_nonneg q : Qle_bool (Qred (Qabs q)) (inject_Z 0) = false
                          \/ Qred (Qabs q) == 0.
Proof.
  destruct (Qle_bool (Qred (Qabs q)) (inject_Z 0)) eqn:H; [right | by left].
  apply Qle_bool_iff in H. rewrite Qred_correct in *.
  pose proof (Qabs_nonneg q). unfold inject_Z in H. lra.
Qed.

(** X7. The jitter of a tick is never negative, and a tick never lowers
    [totalJitter]: neither [0 > jitter] nor [totalJitter before >
    totalJitter after] holds, for any reading of the clock and any
    rate. *)
Theorem jitter_accumulates now s w :
  let s' := final_state (update now s w) in
  gt (of_Z 0) (to_number (jitter s')) = false
  /\ gt (to_number (totalJitter s)) (to_number (totalJitter s')) = false
  /\ totalJitter s' =
       Num (add (to_number (totalJitter s)) (to_number (jitter s'))).
Proof.
  cbv zeta. rewrite update_eq. unfold after_update. simpl.
  set (j := abs _).
  assert (Hj : gt (of_Z 0) j = false /\
               (forall q, j = Fin q -> 0 <= q)).
  { unfold j. destruct (sub _ (delay s)) as [q| | |]; simpl; auto;
      try (split; [reflexivity | discriminate]).
    assert (H0 : 0 <= Qred (Qabs q))
      by (rewrite Qred_correct; apply Qabs_nonneg).
    split.
    - apply negb_false_iff, Qle_bool_iff. exact H0.
    - intros q' [= <-]. exact H0. }
  destruct Hj as [Hj0 Hjq]. split; [exact Hj0|]. split; [|reflexivity].
  destruct (to_number (totalJitter s)) as [t| | |], j as [q| | |];
    simpl; auto.
  apply negb_false_iff, Qle_bool_iff. rewrite Qred_correct.
  specialize (Hjq q eq_refl). lra.
Qed.

Lemma div_minus_one a : div a (of_Z (-1)) = neg a.
Proof.
  destruct a as [q| | |]; simpl; auto.
  f_equal. apply Qred_complete. unfold inject_Z. field.
Qed.

(** X8. [stop()] puts [frame] back to -1 and keeps [totalJitter], so
    after [stop()] the property [averageJitter] is the total jitter with
    its sign changed; right after a [start()] that dispatches no tick it
    is 0 (not a division by zero). *)
Theorem averageJitter_at_frame_minus_one s w d :
  loop s = Some d ->
  timer s = Null ->
  strict_eq (mode s) UpdateLoop_INTERVAL = true
  \/ (strict_eq (mode s) UpdateLoop_RAF = true /\ truthy (targetFPS s) = true) ->
  thrown (stop s w) = None
  /\ averageJitter (final_state (stop s w)) = neg (to_number (totalJitter s))
  /\ averageJitter (final_state (start s w)) = of_Z 0.
Proof.
  intros Hl Ht Hmode.
  assert (Hs : thrown (stop s w) = None
               /\ frame (final_state (stop s w)) = of_Z (-1)
               /\ totalJitter (final_state (stop s w)) = totalJitter s).
  { unfold stop, loop_stop. run_monad. rewrite Hl. run_monad.
    destruct (loop_kind d); run_monad; rewrite Hl; run_monad;
      [destruct (loop_timer d) | destruct (loop_raf d)];
      repeat split; reflexivity. }
  destruct Hs as (Hthrown & Hf & Htot).
  split; [exact Hthrown|]. split.
  - unfold averageJitter. rewrite Hf, Htot. apply div_minus_one.
  - destruct Hmode as [Hi | [Hr Hcapped]].
    + rewrite start_interval_eq by assumption. reflexivity.
    + destruct (start_raf_facts s w Ht Hr)
        as (_ & _ & _ & _ & _ & _ & _ & Hreset & _).
      destruct (Hreset Hcapped) as (Htj & Hfr & _).
      unfold averageJitter. rewrite Htj, Hfr. reflexivity.
Qed.

Lemma averageJitter_at_frame_minus_one_witness :
  let w := fake_world 0 20 in
  let running :=
    and_then (constructor (Num (of_Z 60)) UpdateLoop_INTERVAL w)
      (run [TimerFires 0; TimerFires 0; TimerFires 0]%nat) in
  totalJitter (final_state running) = Num (of_Z 12)
  /\ averageJitter (final_state running) = of_Z 6
  /\ averageJitter (final_state (stop (final_state running) (final_world running)))
     = of_Z (-12)
  /\ averageJitter (final_state (start (final_state running) (final_world running)))
     = of_Z 0.
Proof.
  intros w running.
  destruct (averageJitter_at_frame_minus_one
              (final_state running) (final_world running)
              (mkDriver IntervalUpdate (Some 0%nat) None Undefined)
              eq_refl eq_refl (or_introl eq_refl))
    as (_ & Hstop & Hstart).
  split; [reflexivity|]. split; [reflexivity|].
  split; [rewrite Hstop; reflexivity | exact Hstart].
Defined.

(** ** More on the registered set *)

Lemma filter_twice (obj : addr) (l : list addr) :
  filter (fun stored => stored ≠ obj) (filter (fun stored => stored ≠ obj) l)
  = filter (fun stored => stored ≠ obj) l.
Proof.
  apply filter_absent. intros [H _]%list_elem_of_filter. by apply H.
Qed.

(** X9. Registering a registrant that is not in the set and unregistering
    it again gives back the object as it was: the same registered set in
    the same order, every other field and the host untouched. *)
Theorem register_then_unregister obj s w :
  obj ∉ objects s ->
  and_then (register obj s w) (unregister obj) = Return tt s w.
Proof.
  intros Hout. rewrite register_eq.
  rewrite bool_decide_eq_false_2 by exact Hout.
  simpl. rewrite unregister_eq. simpl.
  rewrite filter_app, (filter_absent _ _ Hout).
  rewrite filter_cons_False by (intros H; by apply H).
  rewrite filter_nil, app_nil_r.
  f_equal. by destruct s.
Qed.

Lemma register_then_unregister_witness :
  let w := fake_world 0 16 in
  let s := final_state (and_then (constructor Undefined Undefined w)
                          (run [CallRegister 5; CallRegister 3]%nat)) in
  objects s = [5; 3]%nat
  /\ and_then (register 8%nat s w) (unregister 8%nat) = Return tt s w.
Proof.
  intros w s. split; [reflexivity|].
  apply (register_then_unregister 8%nat s w).
  intros H. apply list_elem_of_In in H. simpl in H.
  destruct H as [H|[H|H]]; [discriminate H | discriminate H | exact H].
Defined.

(** X10. Calling [register] twice with the same registrant, or
    [unregister] twice, is calling it once; and [unregister] followed by
    [register] moves the registrant to the end of the set, whether or
    not it was there. *)
Theorem registry_calls_compose obj s w :
  and_then (register obj s w) (register obj) = register obj s w
  /\ and_then (unregister obj s w) (unregister obj) = unregister obj s w
  /\ and_then (unregister obj s w) (register obj)
     = Return tt
         (set_objects (filter (fun stored => stored ≠ obj) (objects s) ++ [obj]) s)
         w.
Proof.
  split; [|split].
  - rewrite register_eq. case_bool_decide as Hin; simpl.
    + rewrite register_eq. by rewrite bool_decide_eq_true_2.
    + rewrite register_eq. simpl. rewrite bool_decide_eq_true_2; [reflexivity|].
      apply elem_of_app. right. by apply list_elem_of_singleton.
  - rewrite unregister_eq. simpl. rewrite unregister_eq. simpl.
    by rewrite filter_twice.
  - rewrite unregister_eq. simpl. rewrite register_eq. simpl.
    rewrite bool_decide_eq_false_2; [reflexivity|].
    intros [H _]%list_elem_of_filter. by apply H.
Qed.

(** ** More on the dispatch *)

Lemma elem_of_tick_calls regs dt objs e :
  e ∈ tick_calls regs dt objs ->
  e = Tick dt \/ exists obj p, e = Call obj p dt /\ obj ∈ objs.
Proof.
  unfold tick_calls.
  intros [->|Hin]%elem_of_cons; [by left|right].
  rewrite !elem_of_app in Hin.
  destruct Hin as [Hin|[Hin|Hin]];
    apply list_elem_of_In, in_flat_map in Hin;
    destruct Hin as (obj & Hobj%list_elem_of_In & He); exists obj.
  - unfold early_calls in He.
    destruct (_ && _); simpl in He; [|contradiction].
    destruct He as [<-|[]]. eauto.
  - unfold update_calls in He.
    destruct (_ && _); simpl in He; [destruct He as [<-|[]]; eauto|].
    destruct (r_callable _); simpl in He; [|contradiction].
    destruct He as [<-|[]]. eauto.
  - unfold late_calls in He.
    destruct (is_function _); simpl in He; [|contradiction].
    destruct He as [<-|[]]. eauto.
Qed.

(** X11. A tick calls registered registrants only, and hands every one of
    them the same [deltaTime], the time since the previous tick (or since
    [start()]). *)
Theorem update_calls_registered_only now s w :
  let deltaTime := sub now (to_number (lastUpdate s)) in
  exists new,
    calls (final_world (update now s w)) = calls w ++ Tick deltaTime :: new
    /\ Forall (fun e => exists obj p,
                 e = Call obj p deltaTime /\ obj ∈ objects s) new.
Proof.
  intros dt. rewrite update_eq. simpl. unfold tick_calls. fold dt.
  eexists. split; [reflexivity|].
  apply Forall_forall. intros e He.
  assert (Hin : e ∈ tick_calls (registrants w) dt (objects s))
    by (unfold tick_calls; by right).
  apply elem_of_tick_calls in Hin.
  destruct Hin as [->|Hin]; [|exact Hin].
  exfalso.
  rewrite !elem_of_app in He.
  assert (Hnt : forall l, filter is_tick l = [] -> Tick dt ∉ l).
  { intros l Hl Hin. eapply (filter_nil_not_elem_of is_tick); eauto.
    reflexivity. }
  destruct He as [He|[He|He]]; revert He; apply Hnt;
    [apply filter_is_tick_early | apply filter_is_tick_update
     | apply filter_is_tick_late].
Qed.

(** X12. Once [unregister(obj)] has returned, a tick does not call [obj]
    any more: the calls on [obj] after the tick are those made before. *)
Theorem unregistered_is_not_called obj now s w :
  calls_on obj (final_world (and_then (unregister obj s w) (update now)))
  = calls_on obj w.
Proof.
  rewrite unregister_eq. cbn [and_then]. rewrite update_eq.
  unfold calls_on. simpl. rewrite filter_app.
  set (new := tick_calls _ _ _).
  assert (Hnew : Forall (fun e => is_call_on obj e = false) new).
  { apply Forall_forall. intros e He. unfold new in He.
    apply elem_of_tick_calls in He.
    destruct He as [->|(o & p & -> & Ho)]; [reflexivity|].
    apply list_elem_of_filter in Ho. destruct Ho as [Ho _].
    simpl. by rewrite bool_decide_eq_false_2. }
  assert (Hnone : filter (is_call_on obj) new = []).
  { clear -Hnew. induction Hnew as [|e l He _ IH]; [reflexivity|].
    rewrite filter_cons_False; [exact IH|]. rewrite He. intros []. }
  by rewrite Hnone, app_nil_r.
Qed.

Lemma filter_calls_on_flat_map obj (f : addr -> list event) objs :
  (forall o, filter (is_call_on obj) (f o) = if bool_decide (o = obj) then f o else []) ->
  NoDup objs -> obj ∈ objs ->
  filter (is_call_on obj) (flat_map f objs) = f obj.
Proof.
  intros Hf Hnd. induction Hnd as [|o objs Ho Hnd IH]; intros Hin.
  - by apply elem_of_nil in Hin.
  - simpl. rewrite filter_app, Hf.
    case_bool_decide as Heq.
    + subst o.
      assert (Hrest : filter (is_call_on obj) (flat_map f objs) = []).
      { clear -Hf Ho. induction objs as [|o objs IH]; [reflexivity|].
        simpl. rewrite filter_app, Hf.
        rewrite bool_decide_eq_false_2.
        - apply IH. intros H. apply Ho. by right.
        - intros ->. apply Ho. left. }
      by rewrite Hrest, app_nil_r.
    + apply elem_of_cons in Hin. destruct Hin as [->|Hin]; [done|].
      by apply IH.
Qed.

(** X13. In one tick a registrant that is registered receives at most one
    call per phase, in the order early, update, late: [earlyUpdate] and
    [lateUpdate] if they are functions; [update] if it is a function,
    and otherwise, when the registrant itself is a function, a direct
    call in the place of [update].  A registrant with none of these is
    skipped silently. *)
Theorem calls_on_a_registrant_per_tick obj now s w :
  NoDup (objects s) ->
  obj ∈ objects s ->
  let r := registrants w obj in
  let deltaTime := sub now (to_number (lastUpdate s)) in
  calls_on obj (final_world (update now s w)) =
  calls_on obj w
  ++ (if is_function (r_earlyUpdate r) then [Call obj EarlyUpdate deltaTime] else [])
  ++ (if is_function (r_update r) then [Call obj Update deltaTime]
      else if r_callable r then [Call obj Direct deltaTime] else [])
  ++ (if is_function (r_lateUpdate r) then [Call obj LateUpdate deltaTime] else []).
Proof.
  intros Hnd Hin r dt. rewrite update_eq. unfold calls_on. simpl.
  fold dt. unfold tick_calls.
  rewrite filter_app, filter_cons_False by (simpl; intros []).
  rewrite !filter_app.
  assert (Hself : forall p d, filter (is_call_on obj) [Call obj p d] = [Call obj p d]).
  { intros p d. rewrite filter_cons_True; [reflexivity|].
    simpl. by rewrite bool_decide_eq_true_2. }
  assert (Hother : forall o p d, o ≠ obj -> filter (is_call_on obj) [Call o p d] = []).
  { intros o p d Hne. rewrite filter_cons_False; [reflexivity|].
    simpl. rewrite bool_decide_eq_false_2 by exact Hne. intros []. }
  rewrite (filter_calls_on_flat_map obj (early_calls (registrants w) dt)),
          (filter_calls_on_flat_map obj (update_calls (registrants w) dt)),
          (filter_calls_on_flat_map obj (late_calls (registrants w) dt));
    try assumption.
  - f_equal. unfold early_calls, update_calls, late_calls. fold r.
    destruct (r_earlyUpdate r) as [|[]|], (r_update r) as [|[]|],
      (r_lateUpdate r) as [|[]|]; reflexivity.
  - intros o. unfold late_calls. case_bool_decide as Ho.
    + subst o. destruct (is_function _); [apply Hself | reflexivity].
    + destruct (is_function _); [by apply Hother | reflexivity].
  - intros o. unfold update_calls. case_bool_decide as Ho.
    + subst o. destruct (_ && _); [apply Hself|].
      destruct (r_callable _); [apply Hself | reflexivity].
    + destruct (_ && _); [by apply Hother|].
      destruct (r_callable _); [by apply Hother | reflexivity].
  - intros o. unfold early_calls. case_bool_decide as Ho.
    + subst o. destruct (_ && _); [apply Hself | reflexivity].
    + destruct (_ && _); [by apply Hother | reflexivity].
Qed.

Lemma calls_on_a_registrant_per_tick_witness :
  let built :=
    and_then (constructor Undefined Undefined mixed_world)
      (run [CallRegister 1; CallRegister 2; CallRegister 3; CallRegister 4]%nat) in
  let s := final_state built in
  let w := final_world built in
  calls (final_world (update (of_Z 16) s w)) =
    [Tick (of_Z 16); Call 1%nat Direct (of_Z 16); Call 2%nat Update (of_Z 16);
     Call 3%nat LateUpdate (of_Z 16)]
  /\ calls_on 1%nat (final_world (update (of_Z 16) s w)) = [Call 1%nat Direct (of_Z 16)]
  /\ calls_on 2%nat (final_world (update (of_Z 16) s w)) = [Call 2%nat Update (of_Z 16)]
  /\ calls_on 4%nat (final_world (update (of_Z 16) s w)) = [].
Proof.
  intros built s w.
  assert (Hnd : NoDup (objects s)) by (apply (bool_decide_unpack _); by vm_compute).
  split; [reflexivity|].
  split; [|split].
  - apply (calls_on_a_registrant_per_tick 1%nat (of_Z 16) s w Hnd).
    apply (bool_decide_unpack _). by vm_compute.
  - apply (calls_on_a_registrant_per_tick 2%nat (of_Z 16) s w Hnd).
    apply (bool_decide_unpack _). by vm_compute.
  - apply (calls_on_a_registrant_per_tick 4%nat (of_Z 16) s w Hnd).
    apply (bool_decide_unpack _). by vm_compute.
Defined.

(** ** Starting and stopping *)

Lemma drop_handle_twice {A} h (tbl : list (nat * A)) :
  drop_handle h (drop_handle h tbl) = drop_handle h tbl.
Proof.
  unfold drop_handle. induction tbl as [|e tbl IH]; [reflexivity|].
  rewrite (filter_cons _ e). case_decide as He.
  - rewrite filter_cons_True by exact He. by rewrite IH.
  - exact IH.
Qed.

Lemma drop_handle_fresh {A} h (tbl : list (nat * A)) (a : A) :
  Forall (fun e => e.1 ≠ h) tbl -> drop_handle h (tbl ++ [(h, a)]) = tbl.
Proof.
  intros Hf. unfold drop_handle. rewrite filter_app.
  rewrite filter_cons_False by (simpl; intros H; by apply H).
  rewrite filter_nil, app_nil_r.
  induction Hf as [|e tbl He _ IH]; [reflexivity|].
  rewrite filter_cons_True by exact He. by rewrite IH.
Qed.

Lemma stop_eq s w d :
  loop s = Some d ->
  stop s w =
  Return tt (set_frame (of_Z (-1)) (set_active false s)) (after_loop_stop d w).
Proof.
  intros Hl. unfold stop, loop_stop, after_loop_stop. run_monad.
  rewrite Hl. run_monad.
  destruct (loop_kind d); run_monad; rewrite Hl; run_monad;
    [destruct (loop_timer d) | destruct (loop_raf d)]; reflexivity.
Qed.

(** X14. [stop()] twice is [stop()] once: the second call finds the handle
    already cleared, clears nothing, and assigns the same two fields. *)
Theorem stop_twice s w d :
  loop s = Some d ->
  thrown (stop s w) = None
  /\ and_then (stop s w) stop = stop s w.
Proof.
  intros Hl. rewrite (stop_eq s w d Hl). split; [reflexivity|].
  cbn [and_then]. rewrite (stop_eq _ _ d) by exact Hl.
  f_equal. unfold after_loop_stop.
  destruct (loop_kind d);
    [destruct (loop_timer d) | destruct (loop_raf d)]; try reflexivity;
    run_monad; by rewrite drop_handle_twice.
Qed.

Lemma stop_twice_witness :
  let running :=
    and_then (constructor (Num (of_Z 60)) UpdateLoop_RAF (fake_world 0 16))
      (run [CallRegister 1%nat; Refresh; Refresh]) in
  active (final_state running) = true
  /\ and_then (stop (final_state running) (final_world running)) stop
     = stop (final_state running) (final_world running).
Proof.
  intros running. split; [reflexivity|].
  apply (stop_twice (final_state running) (final_world running)
           (mkDriver RAFUpdate None (Some 2%nat) (Num (of_Z 32)))).
  reflexivity.
Defined.


(** X15. [stop()] undoes what the latest [start()] armed: after [start()]
    and [stop()] the host has the timers and the refresh callbacks it had
    before, the loop is inactive and [frame] is -1.  What an earlier
    [start()] armed is among what the host had before, and stays. *)
Theorem start_then_stop_restores_host s w :
  timer s = Null ->
  valid_mode (mode s) = true ->
  fresh_handle w ->
  let o := and_then (start s w) stop in
  thrown o = None
  /\ intervals (final_world o) = intervals w
  /\ rafs (final_world o) = rafs w
  /\ active (final_state o) = false
  /\ frame (final_state o) = of_Z (-1).
Proof.
  intros Ht Hm [Hfi Hfr]. cbv zeta. unfold valid_mode in Hm.
  destruct (strict_eq (mode s) UpdateLoop_INTERVAL) eqn:Hi.
  - rewrite start_interval_eq by assumption.
    unfold and_then, stop, loop_stop. run_monad.
    rewrite drop_handle_fresh by exact Hfi. repeat split; reflexivity.
  - simpl in Hm.
    destruct (start_raf_facts s w Ht Hm) as (Hok & Hl & _ & Hq & Hiv & _).
    rewrite (returned _ Hok).
    unfold and_then, stop, loop_stop.
    run_monad. rewrite Hl. run_monad. rewrite Hl. run_monad.
    rewrite Hq, Hiv, drop_handle_fresh by exact Hfr.
    repeat split; reflexivity.
Qed.

Lemma start_then_stop_restores_host_witness :
  let running :=
    and_then (constructor (Num (of_Z 60)) UpdateLoop_INTERVAL (fake_world 0 16))
      (run [TimerFires 0%nat]) in
  let o := and_then (start (final_state running) (final_world running)) stop in
  intervals (final_world running) = [(0%nat, (IntervalUpdate, of_Z 16))]
  /\ thrown o = None
  /\ intervals (final_world o) = [(0%nat, (IntervalUpdate, of_Z 16))]
  /\ rafs (final_world o) = []
  /\ active (final_state o) = false
  /\ frame (final_state o) = of_Z (-1).
Proof.
  intros running o. split; [reflexivity|].
  apply (start_then_stop_restores_host (final_state running) (final_world running));
    [reflexivity | reflexivity |].
  split; repeat constructor. simpl. discriminate.
Defined.




(** ** The refresh-sync driver, signal by signal *)

Lemma refresh_signal_single s w h c :
  rafs w = [(h, c)] ->
  refresh_signal s w = reported (run_closure c) s (set_rafs [] w).
Proof.
  intros Hr. unfold refresh_signal. run_monad. rewrite Hr.
  simpl run_frame_callbacks. run_monad. rewrite Hr.
  rewrite bool_decide_eq_true_2 by (simpl; left).
  run_monad. rewrite Hr. unfold drop_handle.
  rewrite filter_cons_False by (simpl; intros H; by apply H).
  rewrite filter_nil. unfold reported.
  by destruct (run_closure c s _) as [[] ? ?|? ? ?].
Qed.

Lemma eligible_capped frame' s :
  truthy (targetFPS s) = true -> eligible frame' s = gt frame' (frame s).
Proof. intros H. unfold eligible. by rewrite H. Qed.

(** X17. With a rate set, a refresh signal dispatches a tick exactly when
    the frame index computed from the clock is greater than [frame]; the
    tick then raises [frame] to that index.  Otherwise the signal changes
    nothing but the handle in [loop.raf] and calls no one.  In both cases
    one callback is queued for the next signal. *)
Theorem refresh_signal_throttles s w d h :
  loop s = Some d ->
  loop_kind d = RAFUpdate ->
  rafs w = [(h, RAFUpdate)] ->
  truthy (targetFPS s) = true ->
  let o := refresh_signal s w in
  let now := clock w (reads w) in
  let frame' := elapsed_frames now d s in
  thrown o = None
  /\ rafs (final_world o) = [(next_handle w, RAFUpdate)]
  /\ loop (final_state o) = Some (set_loop_raf (Some (next_handle w)) d)
  /\ if gt frame' (frame s)
     then frame (final_state o) = frame'
          /\ lastUpdate (final_state o) = Num now
          /\ ticks (final_world o) = S (ticks w)
     else final_state o = set_loop (Some (set_loop_raf (Some (next_handle w)) d)) s
          /\ calls (final_world o) = calls w.
Proof.
  intros Hl Hk Hr Hfps. cbv zeta.
  rewrite (refresh_signal_single s w h RAFUpdate Hr). unfold reported.
  simpl run_closure. rewrite (raf_update_eq _ _ d Hl). cbv zeta.
  change (clock (set_rafs [] w) (reads (set_rafs [] w)))
    with (clock w (reads w)).
  rewrite !(eligible_capped _ _ Hfps).
  run_monad. rewrite Hk.
  destruct (gt _ (frame s)).
  - unfold after_raf_tick, after_update. run_monad.
    unfold ticks. simpl calls.
    rewrite filter_app, ticks_tick_calls, length_app. simpl.
    repeat split; auto. lia.
  - rewrite app_nil_r. repeat split; auto.
Qed.

Lemma refresh_signal_throttles_witness :
  let built := constructor (Num (of_Z 30)) UpdateLoop_RAF (fake_world 0 16) in
  let first := and_then built refresh_signal in
  let second := refresh_signal (final_state first) (final_world first) in
  frame (final_state built) = of_Z (-1)
  /\ (frame (final_state first), ticks (final_world first)) = (of_Z 0, 1%nat)
  /\ thrown second = None
  /\ rafs (final_world second) = [(2%nat, RAFUpdate)]
  /\ calls (final_world second) = calls (final_world first).
Proof.
  intros built first second.
  split; [reflexivity|]. split; [reflexivity|].
  pose proof (refresh_signal_throttles (final_state first) (final_world first)
                (mkDriver RAFUpdate None (Some 1%nat) (Num (of_Z 32))) 1%nat
                eq_refl eq_refl eq_refl eq_refl) as H.
  cbv zeta in H. destruct H as (Hok & Hq & _ & H).
  change (gt _ _) with false in H. cbv iota in H.
  exact (conj Hok (conj Hq (proj2 H))).
Defined.

Lemma refresh_armed_step s w :
  refresh_armed s w ->
  exists s' w',
    refresh_signal s w = Return tt s' w'
    /\ refresh_armed s' w'
    /\ active s' = active s
    /\ (ticks w <= ticks w' <= S (ticks w))%nat.
Proof.
  intros (d & h & Hl & Hk & Hr).
  rewrite (refresh_signal_single s w h RAFUpdate Hr). unfold reported.
  simpl run_closure. rewrite (raf_update_eq _ _ d Hl). cbv zeta.
  do 2 eexists. split; [reflexivity|]. split; [|split].
  - exists (set_loop_raf (Some (next_handle w)) d), (next_handle w).
    run_monad. rewrite Hk. repeat split; reflexivity.
  - by destruct (eligible _ s).
  - unfold ticks. run_monad. rewrite filter_app, length_app.
    destruct (eligible _ s); [rewrite ticks_tick_calls|]; simpl; lia.
Qed.

Lemma refresh_armed_run n : forall s w,
  refresh_armed s w ->
  exists s' w',
    run (replicate n Refresh) s w = Return tt s' w'
    /\ refresh_armed s' w'
    /\ active s' = active s
    /\ (ticks w <= ticks w' <= ticks w + n)%nat.
Proof.
  induction n as [|n IH]; intros s w Hs.
  - exists s, w. repeat split; auto; lia.
  - destruct (refresh_armed_step _ _ Hs) as (s1 & w1 & H1 & Hs1 & Ha1 & Ht1).
    destruct (IH _ _ Hs1) as (s2 & w2 & H2 & Hs2 & Ha2 & Ht2).
    exists s2, w2. simpl. unfold bind. rewrite H1.
    repeat split; auto; [congruence | lia | lia].
Qed.

(** X18. A refresh-sync loop, with any rate or none, keeps exactly one
    callback queued: after the constructor and after each of [n] refresh
    signals one callback of the driver is waiting for the next signal,
    nothing is thrown, the loop is active, and each signal dispatches at
    most one tick. *)
Theorem refresh_sync_rearms_once fps w n :
  rafs w = [] ->
  let built := constructor fps UpdateLoop_RAF w in
  let o := and_then built (run (replicate n Refresh)) in
  thrown o = None
  /\ length (rafs (final_world o)) = 1%nat
  /\ active (final_state o) = true
  /\ (ticks (final_world built) <= ticks (final_world o)
      <= ticks (final_world built) + n)%nat.
Proof.
  intros Hr. cbv zeta. unfold constructor.
  set (s0 := mkUpdateLoop _ _ _ _ _ _ _ _ _ _ _ _).
  destruct (start_raf_facts s0 w eq_refl eq_refl)
    as (Hok & Hl & Ha & Hq & _).
  rewrite (returned _ Hok). cbn [and_then final_world].
  assert (Harmed : refresh_armed (final_state (start s0 w))
                     (final_world (start s0 w))).
  { do 2 eexists. split; [exact Hl|]. split; [reflexivity|].
    by rewrite Hq, Hr. }
  destruct (refresh_armed_run n _ _ Harmed)
    as (s1 & w1 & -> & Harmed1 & Hact & Ht).
  cbn [thrown final_world final_state].
  destruct Harmed1 as (d & h & _ & _ & ->).
  repeat split; auto; try lia. congruence.
Qed.

Lemma refresh_sync_rearms_once_witness :
  let w := fake_world 0 16 in
  let o := and_then (constructor (Num (of_Z 30)) UpdateLoop_RAF w)
             (run (replicate 6 Refresh)) in
  thrown o = None
  /\ length (rafs (final_world o)) = 1%nat
  /\ active (final_state o) = true
  /\ (ticks (final_world (constructor (Num (of_Z 30)) UpdateLoop_RAF w))
      <= ticks (final_world o)
      <= ticks (final_world (constructor (Num (of_Z 30)) UpdateLoop_RAF w)) + 6)%nat.
Proof.
  intros w o.
  apply (refresh_sync_rearms_once (Num (of_Z 30)) w 6). reflexivity.
Defined.

Lemma elapsed_frames_uncapped now st d s :
  targetFPS s = Null \/ targetFPS s = Num (of_Z 0) ->
  loop_startTime d = Num (Fin st) ->
  is_finite now = true ->
  elapsed_frames now d s = of_Z 0.
Proof.
  intros Hfps Hst Hnow. unfold elapsed_frames, delay. rewrite Hst.
  destruct now as [t| | |]; try discriminate Hnow.
  by destruct Hfps as [-> | ->].
Qed.

Lemma uncapped_running_step c s w :
  (forall k, is_finite (c k) = true) ->
  uncapped_running c s w ->
  exists s' w',
    refresh_signal s w = Return tt s' w'
    /\ uncapped_running c s' w'
    /\ frame s' = of_Z 0
    /\ ticks w' = S (ticks w).
Proof.
  intros Hfin (Hc & Hfps & d & h & st & Hl & Hk & Hst & Hr).
  assert (Hfalsy : truthy (targetFPS s) = false)
    by (by destruct Hfps as [-> | ->]).
  rewrite (refresh_signal_single s w h RAFUpdate Hr). unfold reported.
  simpl run_closure. rewrite (raf_update_eq _ _ d Hl). cbv zeta.
  rewrite falsy_rate_always_eligible by exact Hfalsy.
  change (clock (set_rafs [] w) (reads (set_rafs [] w)))
    with (clock w (reads w)).
  rewrite (elapsed_frames_uncapped _ st d s Hfps Hst)
    by (rewrite Hc; apply Hfin).
  do 2 eexists. split; [reflexivity|].
  unfold after_raf_tick, after_update. run_monad.
  split; [|split; [reflexivity|]].
  - split; [exact Hc|]. split; [exact Hfps|].
    exists (set_loop_raf (Some (next_handle w)) d), (next_handle w), st.
    rewrite Hk. repeat split; auto.
  - unfold ticks. simpl calls.
    rewrite filter_app, ticks_tick_calls, length_app. simpl. lia.
Qed.

Lemma uncapped_running_run c n : forall s w,
  (forall k, is_finite (c k) = true) ->
  uncapped_running c s w ->
  exists s' w',
    run (replicate (S n) Refresh) s w = Return tt s' w'
    /\ uncapped_running c s' w'
    /\ frame s' = of_Z 0
    /\ ticks w' = (ticks w + S n)%nat.
Proof.
  induction n as [|n IH]; intros s w Hfin Hs.
  - destruct (uncapped_running_step c s w Hfin Hs) as (s1 & w1 & H1 & Hs1 & Hf & Ht).
    exists s1, w1. simpl. unfold bind. rewrite H1.
    split; [reflexivity|]. split; [exact Hs1|]. split; [exact Hf|]. lia.
  - destruct (uncapped_running_step c s w Hfin Hs) as (s1 & w1 & H1 & Hs1 & _ & Ht1).
    destruct (IH s1 w1 Hfin Hs1) as (s2 & w2 & H2 & Hs2 & Hf & Ht2).
    exists s2, w2. change (run (replicate (S (S n)) Refresh) s w)
      with (bind (refresh_signal) (fun _ => run (replicate (S n) Refresh)) s w).
    unfold bind. rewrite H1.
    split; [exact H2|]. split; [exact Hs2|]. split; [exact Hf|]. lia.
Qed.

(** X19. In refresh-sync mode without a rate ([targetFPS] null or 0)
    [frame] does not count ticks: it is [NaN] when the constructor
    returns, and 0 after every refresh signal, although each signal
    dispatches a tick (on a clock whose readings are finite). *)
Theorem uncapped_frame_does_not_count fps w n :
  fps = Null \/ fps = Num (of_Z 0) ->
  rafs w = [] ->
  (forall k, is_finite (clock w k) = true) ->
  let built := constructor fps UpdateLoop_RAF w in
  let o := and_then built (run (replicate (S n) Refresh)) in
  thrown o = None
  /\ frame (final_state built) = NaN
  /\ frame (final_state o) = of_Z 0
  /\ ticks (final_world o) = (ticks w + S (S n))%nat.
Proof.
  intros Hfps Hr Hfin. cbv zeta. unfold constructor.
  set (s0 := mkUpdateLoop _ _ _ _ _ _ _ _ _ _ _ _).
  assert (Hfps0 : targetFPS s0 = fps) by (by destruct Hfps as [-> | ->]).
  assert (Hfalsy : truthy (targetFPS s0) = false)
    by (rewrite Hfps0; by destruct Hfps as [-> | ->]).
  destruct (start_raf_facts s0 w eq_refl eq_refl)
    as (Hok & Hl & _ & Hq & _ & Hc & Ht & _ & Hframe).
  rewrite Hfalsy in Ht. specialize (Hframe Hfalsy).

  assert (Hrun : uncapped_running (clock w) (final_state (start s0 w))
                   (final_world (start s0 w))).
  { split; [exact Hc|]. split.
    - rewrite start_keeps_targetFPS, Hfps0. exact Hfps.
    - pose proof (Hfin (S (S (reads w)))) as Hf2.
      destruct (clock w (S (S (reads w)))) as [st| | |] eqn:Hst;
        try discriminate Hf2.
      do 3 eexists. split; [exact Hl|]. split; [reflexivity|].
      split; [reflexivity|]. by rewrite Hq, Hr. }
  destruct (uncapped_running_run (clock w) n _ _ Hfin Hrun)
    as (s1 & w1 & Hrun1 & _ & Hf1 & Ht1).
  rewrite (returned _ Hok). cbn [and_then]. rewrite Hrun1.
  cbn [thrown final_state final_world].
  repeat split; auto. lia.
Qed.

Lemma uncapped_frame_does_not_count_witness :
  let w := fake_world 0 16 in
  let built := constructor Null UpdateLoop_RAF w in
  let o := and_then built (run (replicate 4 Refresh)) in
  thrown o = None
  /\ frame (final_state built) = NaN
  /\ frame (final_state o) = of_Z 0
  /\ ticks (final_world o) = 5%nat.
Proof.
  intros w built o.
  apply (uncapped_frame_does_not_count Null w 3);
    [by left | reflexivity | intros k; reflexivity].
Defined.

(** ** The fixed-interval driver, firing by firing *)

Lemma interval_running_step h t0 k s w :
  interval_running h t0 k s w ->
  exists s' w',
    fire_interval h s w = Return tt s' w'
    /\ interval_running h t0 (S k) s' w'
    /\ lastUpdate s' = Num (clock w (reads w)).
Proof.
  intros ((ms & Hi) & Ht & Hf & Hd).
  unfold fire_interval. run_monad. rewrite Hi. simpl.
  rewrite bool_decide_eq_true_2 by reflexivity.
  rewrite interval_update_eq. cbv zeta.
  do 2 eexists. split; [reflexivity|].
  unfold interval_running, after_update. run_monad.
  rewrite ticks_log, ticks_tick_calls. unfold ticks in *. simpl calls.
  rewrite Hf, add_of_Z.
  repeat split; eauto.
  - simpl. lia.
  - f_equal. lia.
Qed.

Lemma interval_running_run h t0 n : forall k s w,
  interval_running h t0 k s w ->
  exists s' w',
    run (replicate n (TimerFires h)) s w = Return tt s' w'
    /\ interval_running h t0 (k + n) s' w'.
Proof.
  induction n as [|n IH]; intros k s w Hs.
  - exists s, w. by rewrite Nat.add_0_r.
  - destruct (interval_running_step _ _ _ _ _ Hs) as (s1 & w1 & H1 & Hs1 & _).
    destruct (IH _ _ _ Hs1) as (s2 & w2 & H2 & Hs2).
    exists s2, w2. simpl. unfold bind. rewrite H1.
    split; [exact H2|].
    by replace (k + S n)%nat with (S k + n)%nat by lia.
Qed.

(** X20. In fixed-interval mode every firing of the timer dispatches one
    tick and adds 1 to [frame], whatever the rate and whatever the clock
    reads: after [n] firings [n] ticks were dispatched and [frame] is
    [n - 1].  The driver never touches [droppedFrame], and its timer
    stays armed. *)
Theorem fixed_interval_counts_firings fps w n :
  intervals w = [] ->
  let built := constructor fps UpdateLoop_INTERVAL w in
  let o := and_then built (run (replicate n (TimerFires (next_handle w)))) in
  thrown o = None
  /\ ticks (final_world o) = (ticks w + n)%nat
  /\ frame (final_state o) = of_Z (Z.of_nat n - 1)
  /\ droppedFrame (final_state o) = None
  /\ length (intervals (final_world o)) = 1%nat.
Proof.
  intros Hi. cbv zeta. unfold constructor.
  rewrite start_interval_eq by reflexivity. cbn [and_then].
  match goal with
  | |- context [run _ ?s ?w'] =>
      assert (Hs : interval_running (next_handle w) (ticks w) 0 s w')
  end.
  { split; [|repeat split].
    - eexists. simpl. rewrite Hi. reflexivity.
    - unfold ticks. simpl. lia. }
  destruct (interval_running_run _ _ n _ _ _ Hs) as (s1 & w1 & -> & Hs1).
  destruct Hs1 as ((ms & Hi1) & Ht1 & Hf1 & Hd1).
  cbn [thrown final_state final_world]. rewrite Hi1.
  repeat split; auto.
Qed.

Lemma fixed_interval_counts_firings_witness :
  let w := fake_world 0 20 in
  let o := and_then (constructor Null UpdateLoop_INTERVAL w)
             (run (replicate 7 (TimerFires 0%nat))) in
  thrown o = None
  /\ ticks (final_world o) = 7%nat
  /\ frame (final_state o) = of_Z 6
  /\ droppedFrame (final_state o) = None
  /\ length (intervals (final_world o)) = 1%nat.
Proof.
  intros w o.
  apply (fixed_interval_counts_firings Null w 7). reflexivity.
Defined.

(** ** The time handed to the registrants *)










(** ** After the constructor *)

Lemma constructed_run_closure c s w :
  constructed s ->
  thrown (run_closure c s w) = None
  /\ constructed (final_state (run_closure c s w)).
Proof.
  intros (Ht & Hm & [d Hl]). destruct c; simpl run_closure.
  - rewrite interval_update_eq. cbv zeta. cbn [thrown final_state].
    split; [reflexivity|].
    split; [exact Ht|]. split; [exact Hm|]. exists d. exact Hl.
  - rewrite (raf_update_eq s w d Hl). cbv zeta. cbn [thrown final_state].
    split; [reflexivity|].
    split; [by destruct (eligible _ s)|].
    split; [by destruct (eligible _ s)|]. eexists; reflexivity.
Qed.

Lemma constructed_run_frame_callbacks pending : forall s w,
  constructed s ->
  thrown (run_frame_callbacks pending s w) = None
  /\ constructed (final_state (run_frame_callbacks pending s w)).
Proof.
  induction pending as [|[h c] pending IH]; intros s w Hs; [by split|].
  simpl. run_monad.
  destruct (bool_decide _); run_monad; [|by apply IH].
  unfold reported.
  destruct (constructed_run_closure c s
              (set_rafs (drop_handle h (rafs w)) w) Hs) as [_ Hc].
  destruct (run_closure c s _) as [[] s1 w1|e s1 w1]; by apply IH.
Qed.

Lemma constructed_start s w :
  constructed s ->
  thrown (start s w) = None
  /\ constructed (final_state (start s w))
  /\ armed_count (final_world (start s w)) = S (armed_count w).
Proof.
  intros (Ht & Hm & _). unfold constructed, armed_count.
  pose proof (keeps_start settings (fun _ _ => eq_refl) (fun _ _ => eq_refl)
                (fun _ _ => eq_refl) (fun _ _ => eq_refl) (fun _ _ => eq_refl)
                (fun _ _ => eq_refl) (fun _ _ => eq_refl) s w) as Hkeep.
  unfold settings in Hkeep. injection Hkeep as _ Hkt Hkm _.
  rewrite Hkt, Hkm. pose proof Hm as Hvalid. unfold valid_mode in Hm.
  destruct (strict_eq (mode s) UpdateLoop_INTERVAL) eqn:Hi.
  - rewrite start_interval_eq by assumption. simpl.
    rewrite length_app. simpl.
    split; [reflexivity|]. split; [|lia].
    split; [exact Ht|]. split; [exact Hvalid|]. eexists; reflexivity.
  - simpl in Hm.
    destruct (start_raf_facts s w Ht Hm) as (Hok & Hl & _ & Hq & Hiv & _).
    rewrite Hok, Hl, Hq, Hiv, length_app. simpl.
    split; [reflexivity|]. split; [|lia].
    split; [exact Ht|]. split; [exact Hvalid|]. eexists; reflexivity.
Qed.

Lemma constructed_run_step a s w :
  constructed s ->
  thrown (run_step a s w) = None /\ constructed (final_state (run_step a s w)).
Proof.
  intros Hs. destruct a; simpl run_step.
  - destruct (constructed_start s w Hs) as (H1 & H2 & _). by split.
  - destruct Hs as (Ht & Hm & [d Hl]). rewrite (stop_eq s w d Hl).
    split; [reflexivity|].
    split; [exact Ht|]. split; [exact Hm|]. exists d. exact Hl.
  - rewrite register_eq. split; [reflexivity|].
    cbn [final_state]. by destruct (bool_decide _).
  - rewrite unregister_eq. by split.
  - unfold fire_interval. run_monad.
    destruct (lookup_handle h (intervals w)) as [[c ms]|]; [|by split].
    by apply constructed_run_closure.
  - unfold refresh_signal. run_monad. by apply constructed_run_frame_callbacks.
Qed.

Lemma constructed_run script : forall s w,
  constructed s ->
  thrown (run script s w) = None /\ constructed (final_state (run script s w)).
Proof.
  induction script as [|a script IH]; intros s w Hs; [by split|].
  simpl. unfold bind.
  destruct (constructed_run_step a s w Hs) as [Hok Hs1].
  destruct (run_step a s w) as [[] s1 w1|e s1 w1]; [|discriminate Hok].
  by apply IH.
Qed.

Lemma constructed_constructor fps m w :
  valid_mode (or_else m UpdateLoop_INTERVAL) = true ->
  thrown (constructor fps m w) = None
  /\ constructed (final_state (constructor fps m w)).
Proof.
  intros Hm. unfold constructor.
  set (s0 := mkUpdateLoop _ _ _ _ _ _ _ _ _ _ _ _).
  pose proof (keeps_start settings (fun _ _ => eq_refl) (fun _ _ => eq_refl)
                (fun _ _ => eq_refl) (fun _ _ => eq_refl) (fun _ _ => eq_refl)
                (fun _ _ => eq_refl) (fun _ _ => eq_refl) s0 w) as Hkeep.
  unfold settings in Hkeep. injection Hkeep as _ Hkt Hkm _.
  unfold constructed. rewrite Hkt, Hkm.
  change (mode s0) with (or_else m UpdateLoop_INTERVAL). rewrite Hm.
  change (or_else m UpdateLoop_INTERVAL) with (mode s0) in Hm.
  unfold valid_mode in Hm.
  destruct (strict_eq (mode s0) UpdateLoop_INTERVAL) eqn:Hi.
  - rewrite start_interval_eq by (reflexivity || assumption).
    split; [reflexivity|]. split; [reflexivity|]. split; [reflexivity|].
    eexists; reflexivity.
  - simpl in Hm.
    destruct (start_raf_facts s0 w eq_refl Hm) as (Hok & Hl & _).
    rewrite Hok, Hl.
    split; [reflexivity|]. split; [reflexivity|]. split; [reflexivity|].
    eexists; reflexivity.
Qed.

(** X22. Once the constructor has returned, nothing throws: whatever
    calls of [start], [stop], [register], [unregister] and whatever
    timer firings and refresh signals follow, every one of them returns.
    The invalid-mode error can only come out of the constructor, and
    [stop] never finds [this.loop] undefined. *)
Theorem nothing_throws_after_constructor fps m w script :
  valid_mode (or_else m UpdateLoop_INTERVAL) = true ->
  thrown (and_then (constructor fps m w) (run script)) = None.
Proof.
  intros Hm. destruct (constructed_constructor fps m w Hm) as [Hok Hs].
  rewrite (returned _ Hok). cbn [and_then].
  by apply constructed_run.
Qed.

Lemma nothing_throws_after_constructor_witness :
  thrown (and_then (constructor (Num (of_Z 60)) UpdateLoop_RAF (fake_world 0 16))
            (run [CallStop; CallStop; Refresh; CallStart; CallStart;
                  TimerFires 3%nat; CallUnregister 9%nat; Refresh; CallStop]))
  = None.
Proof.
  apply (nothing_throws_after_constructor (Num (of_Z 60)) UpdateLoop_RAF
           (fake_world 0 16)).
  reflexivity.
Defined.

(** X23. [start()] never finds a driver running: on an object that was
    constructed, after any calls and host events, one more [start()]
    returns and arms one more timer or refresh callback, next to those
    already armed. *)
Theorem every_start_arms_a_driver fps m w script :
  valid_mode (or_else m UpdateLoop_INTERVAL) = true ->
  let o := and_then (constructor fps m w) (run script) in
  thrown (start (final_state o) (final_world o)) = None
  /\ armed_count (final_world (start (final_state o) (final_world o)))
     = S (armed_count (final_world o)).
Proof.
  intros Hm. cbv zeta.
  destruct (constructed_constructor fps m w Hm) as [Hok Hs].
  rewrite (returned _ Hok). cbn [and_then].
  destruct (constructed_run script _ (final_world (constructor fps m w)) Hs)
    as [_ Hs1].
  destruct (constructed_start _ (final_world (run script
              (final_state (constructor fps m w))
              (final_world (constructor fps m w)))) Hs1) as (H1 & _ & H2).
  by split.
Qed.

Lemma every_start_arms_a_driver_witness :
  let o := and_then (constructor Undefined Undefined (fake_world 0 16))
             (run [CallStart; TimerFires 0%nat; CallStart]) in
  armed_count (final_world o) = 3%nat
  /\ thrown (start (final_state o) (final_world o)) = None
  /\ armed_count (final_world (start (final_state o) (final_world o)))
     = S (armed_count (final_world o)).
Proof.
  intros o. split; [reflexivity|].
  apply (every_start_arms_a_driver Undefined Undefined (fake_world 0 16)
           [CallStart; TimerFires 0%nat; CallStart]).
  reflexivity.
Defined.
